(** * Espruino [Storage] and [StorageFile] (src/jswrap_storage.c)

    A shallow embedding of the JavaScript-facing flash storage wrappers:
    the thin [Storage] functions and the chunked append stream
    [StorageFile] that is layered on the journal store.

    The journal store itself (jsflash.c), the flash driver (jshardware.h),
    the interpreter's variables (jsvar.c) and the JSON library are not part
    of the file; they are collected in the class [Externals] and every
    statement about the wrappers is made for an arbitrary instance of it.
    A small simulated store, [Sim], instantiates the class so that the
    functions can be run on concrete flash contents.

    Conventions.
    - [uint32_t] variables are integers reduced modulo [2^32]; [char]
      values are compared through their value modulo [256].
    - [int] arithmetic is left unreduced: signed overflow is undefined in C
      and the statements keep offsets and chunk numbers far below [2^31].
    - Reference counting ([jsvUnLock], [jsvLockAgainSafe]) has no
      observable effect and is left out, and allocation of interpreter
      variables is taken to succeed.
    - The [while] loops take a [fuel] argument; [None] means that the fuel
      ran out before the loop finished. *)

From Stdlib Require Import String Ascii ZArith List Bool Lia FMapPositive.
Import ListNotations.
Local Open Scope Z_scope.

(** ** Machine integers and bytes *)

Definition bytes := list Z.

Definition uint32_t (z : Z) : Z := z mod 2 ^ 32.

(** [(char)z]: the value of a [char], taken as its unsigned representative.
    Two [char]s are equal exactly when these representatives are. *)
Definition char (z : Z) : Z := z mod 256.

(** The conversion of an [int] that is compared with a [size_t]
    (a 32-bit target). *)
Definition size_t (z : Z) : Z := z mod 2 ^ 32.

Definition bytes_of_string (s : string) : bytes :=
  map (fun c => Z.of_nat (nat_of_ascii c)) (list_ascii_of_string s).

Definition ch_r : Z := 114.
Definition ch_w : Z := 119.
Definition ch_a : Z := 97.
Definition ch_newline : Z := 10.

(** ** Exceptions raised with [jsExceptionHere] *)

Inductive JsException : Type :=
| JSET_ERROR (format : string).

(** ** File names

    [JsfFileName] is declared in jsflash.h as eight [char]s. *)

Definition JsfFileName := bytes.

Definition sizeof_JsfFileName : nat := 8.

(** Modelled from the spec: [jsfNameFromVar] of jsflash.c.  A file name
    is a fixed-width identifier of N = 8 bytes; shorter logical names are
    right-padded with [0x00]. *)
Definition jsfNameFromVar (name : bytes) : JsfFileName :=
  firstn sizeof_JsfFileName (name ++ repeat 0 sizeof_JsfFileName).

(** The first [n] bytes of [l], for a count given as an integer. *)
Fixpoint take (n : Z) (l : bytes) : bytes :=
  match l with
  | [] => []
  | b :: rest => if n <=? 0 then [] else b :: take (n - 1) rest
  end.

(** [jsvNewFromStringVar(str, stridx, maxLength)] on a string: at most
    [maxLength] bytes of [str], starting at index [stridx]. *)
Definition jsvNewFromStringVar (str : bytes) (stridx maxLength : Z) : bytes :=
  take maxLength (skipn (Z.to_nat stridx) str).

Definition JSVAPPENDSTRINGVAR_MAXLENGTH : Z := 2147483647.

(** [while (fnamei && fname.c[fnamei-1]==0) fnamei--;] *)
Fixpoint strip_zeros (fname : JsfFileName) (fnamei : nat) : nat :=
  match fnamei with
  | O => O
  | S k => if nth k fname 0 =? 0 then strip_zeros fname k else fnamei
  end.

(** [int fnamei = sizeof(fname)-1; while (...) fnamei--;] *)
Definition name_end (fname : JsfFileName) : nat :=
  strip_zeros fname (sizeof_JsfFileName - 1).

(** [fname.c[i] = c;] with the conversion of the [int] to [char]. *)
Fixpoint set_c (fname : JsfFileName) (i : nat) (c : Z) : JsfFileName :=
  match fname, i with
  | [], _ => []
  | _ :: t, O => char c :: t
  | h :: t, S i' => h :: set_c t i' c
  end.

(** ** The external collaborators *)

Class Externals : Type := {
  (* jsvar.h *)
  JsVar : Type;
  jsvIsStringEqual : JsVar -> string -> bool;
  jsvIsObject : JsVar -> bool;
  (* the bytes of [jsvAsString(v)], [None] when it returns 0 *)
  jsvAsString : JsVar -> option bytes;
  (* a string variable holding the given bytes *)
  jsvNewFromString : bytes -> JsVar;
  (* jswrap_json.h *)
  jswrap_json_stringify : JsVar -> JsVar;
  jswrap_json_parse : JsVar -> option JsVar;
  (* jsflash.h, jshardware.h, jswrap_flash.h *)
  flash : Type;
  JsfFileHeader : Type;
  JsfFileFlags : Type;
  JSFF_NONE : JsfFileFlags;
  (* [FLASH_PAGE_SIZE - sizeof(JsfFileHeader)] *)
  STORAGEFILE_CHUNKSIZE : Z;
  (* the byte stored at a flash address *)
  flash_byte : flash -> Z -> Z;
  (* address of the file's body, 0 when there is none, and its header *)
  jsfFindFile : flash -> JsfFileName -> Z * JsfFileHeader;
  jsfGetFileSize : JsfFileHeader -> Z;
  jsfReadFile : flash -> JsfFileName -> option JsVar;
  jsfWriteFile :
    flash -> JsfFileName -> JsVar -> JsfFileFlags -> Z -> Z -> flash * bool;
  jsfEraseFile : flash -> JsfFileName -> flash * bool;
  jswrap_flash_write : flash -> bytes -> Z -> flash
}.

(** ** The handle object

    The [StorageFile] object carries the children [name], [chunk],
    [offset], [addr] and [mode]. *)

Record StorageFile : Type := {
  sf_name : bytes;
  sf_chunk : Z;
  sf_offset : Z;
  sf_addr : Z;
  sf_mode : Z
}.

Definition set_chunk (f : StorageFile) (v : Z) : StorageFile :=
  {| sf_name := sf_name f; sf_chunk := v; sf_offset := sf_offset f;
     sf_addr := sf_addr f; sf_mode := sf_mode f |}.

Definition set_offset (f : StorageFile) (v : Z) : StorageFile :=
  {| sf_name := sf_name f; sf_chunk := sf_chunk f; sf_offset := v;
     sf_addr := sf_addr f; sf_mode := sf_mode f |}.

Definition set_addr (f : StorageFile) (v : Z) : StorageFile :=
  {| sf_name := sf_name f; sf_chunk := sf_chunk f; sf_offset := sf_offset f;
     sf_addr := v; sf_mode := sf_mode f |}.

Definition set_mode (f : StorageFile) (v : Z) : StorageFile :=
  {| sf_name := sf_name f; sf_chunk := sf_chunk f; sf_offset := sf_offset f;
     sf_addr := sf_addr f; sf_mode := v |}.

(** [jspNewObject(0, "StorageFile")] followed by setting [name]: the other
    children are absent and read as 0. *)
Definition new_StorageFile (n : bytes) : StorageFile :=
  {| sf_name := n; sf_chunk := 0; sf_offset := 0; sf_addr := 0; sf_mode := 0 |}.

Section Wrappers.

Context {E : Externals}.

(** Modelled from the spec: [jshFlashRead(buf, addr, len)], the bulk read
    of the flash driver; addresses are 32-bit words. *)
Definition jshFlashRead (fl : flash) (addr len : Z) : bytes :=
  map (fun i => flash_byte fl (uint32_t (addr + Z.of_nat i)))
      (seq 0 (Z.to_nat len)).

(** The two wrong-mode errors. *)
Definition read_error : JsException := JSET_ERROR "Can't read in this mode".
Definition write_error : JsException := JSET_ERROR "Can't write in this mode".

(** ** Storage *)

Definition jswrap_storage_erase (fl : flash) (name : bytes) : flash :=
  fst (jsfEraseFile fl (jsfNameFromVar name)).

Definition jswrap_storage_read (fl : flash) (name : bytes) : option JsVar :=
  jsfReadFile fl (jsfNameFromVar name).

Definition jswrap_storage_readJSON (fl : flash) (name : bytes)
  : option JsVar :=
  match jsfReadFile fl (jsfNameFromVar name) with
  | None => None
  | Some v => jswrap_json_parse v
  end.

Definition jswrap_storage_write (fl : flash) (name : bytes) (data : JsVar)
    (offset _size : Z) : flash * bool :=
  let '(d, offset, _size) :=
    if jsvIsObject data
    then (jswrap_json_stringify data, 0, 0)
    else (data, offset, _size) in
  jsfWriteFile fl (jsfNameFromVar name) d JSFF_NONE offset _size.

(** ** StorageFile.erase *)

(** [while (ok) { fname.c[fnamei]=chunk; ok = jsfEraseFile(fname); chunk++; }] *)
Fixpoint erase_loop (fuel : nat) (fl : flash) (fname : JsfFileName)
    (fnamei : nat) (chunk : Z) : option flash :=
  match fuel with
  | O => None
  | S fuel' =>
      let fname := set_c fname fnamei chunk in
      let (fl', ok) := jsfEraseFile fl fname in
      let chunk := chunk + 1 in
      if ok then erase_loop fuel' fl' fname fnamei chunk else Some fl'
  end.

Definition jswrap_storagefile_erase (fuel : nat) (fl : flash)
    (f : StorageFile) : option (flash * StorageFile) :=
  let fname := jsfNameFromVar (sf_name f) in
  let fnamei := name_end fname in
  match erase_loop fuel fl fname fnamei 1 with
  | None => None
  | Some fl' =>
      let f := set_chunk f 1 in
      let f := set_offset f 0 in
      let f := set_addr f 0 in
      let f := set_mode f 0 in
      Some (fl', f)
  end.

(** ** Storage.open *)

(** The mode selected by the chain of [jsvIsStringEqual] tests; [None] is
    the final [else]. *)
Definition open_mode (modeVar : JsVar) : option Z :=
  if jsvIsStringEqual modeVar "r" then Some ch_r
  else if jsvIsStringEqual modeVar "w" then Some ch_w
  else if jsvIsStringEqual modeVar "a" then Some ch_a
  else None.

(** [jshFlashRead(&lastCh, addr+jsfGetFileSize(&header)-1, 1)] *)
Definition read_lastCh (fl : flash) (addr : Z) (header : JsfFileHeader) : Z :=
  nth 0 (jshFlashRead fl (uint32_t (addr + jsfGetFileSize header - 1)) 1) 255.

(** [while (addr && lastCh!=255 && chunk<255) { ... }]; the result is the
    final [chunk] and [addr]. *)
Fixpoint append_walk (fuel : nat) (fl : flash) (fname : JsfFileName)
    (fnamei : nat) (chunk addr lastCh : Z) : option (Z * Z) :=
  match fuel with
  | O => None
  | S fuel' =>
      if negb (addr =? 0) && negb (lastCh =? 255) && (chunk <? 255) then
        let chunk := chunk + 1 in
        let fname := set_c fname fnamei chunk in
        let (found, header) := jsfFindFile fl fname in
        let addr := uint32_t found in
        let lastCh :=
          if addr =? 0 then lastCh else read_lastCh fl addr header in
        append_walk fuel' fl fname fnamei chunk addr lastCh
      else Some (chunk, addr)
  end.

(** [for (int i=0;i<l;i++) if (buf[i]==(char)255) { l = i; ... break; }]:
    the index of the first [0xFF] in the buffer, counted from [i]. *)
Fixpoint find_end (buf : bytes) (i : Z) : option Z :=
  match buf with
  | [] => None
  | b :: rest => if b =? 255 then Some i else find_end rest (i + 1)
  end.

(** [while (!foundEnd) { ... }]; the result is the final [offset].  The
    buffer holds 64 bytes. *)
Fixpoint append_scan (fuel : nat) (fl : flash) (addr offset : Z)
  : option Z :=
  match fuel with
  | O => None
  | S fuel' =>
      let l := STORAGEFILE_CHUNKSIZE - offset in
      if l <=? 0 then Some offset
      else
        let l := if l >? 64 then 64 else l in
        let buf := jshFlashRead fl (uint32_t (addr + offset)) l in
        match find_end buf 0 with
        | Some i => Some (offset + i)
        | None => append_scan fuel' fl addr (offset + l)
        end
  end.

(** The body of [if (mode=='a') { ... }]; the result is [chunk], [offset]
    and [addr]. *)
Definition open_append (fuel : nat) (fl : flash) (fname : JsfFileName)
    (fnamei : nat) (chunk offset addr : Z) (header : JsfFileHeader)
  : option (Z * Z * Z) :=
  let lastCh := 255 in
  let lastCh := if addr =? 0 then lastCh else read_lastCh fl addr header in
  match append_walk fuel fl fname fnamei chunk addr lastCh with
  | None => None
  | Some (chunk, addr) =>
      if addr =? 0 then Some (chunk, offset, addr)
      else
        match append_scan fuel fl addr offset with
        | None => None
        | Some offset => Some (chunk, offset, addr)
        end
  end.

Definition jswrap_storage_open (fuel : nat) (fl : flash) (name : bytes)
    (modeVar : JsVar)
  : option (flash * option StorageFile * option JsException) :=
  match open_mode modeVar with
  | None => Some (fl, None, Some (JSET_ERROR "Invalid mode %j"))
  | Some mode =>
      let chunk := 1 in
      let n := jsvNewFromStringVar name 0 8 in
      let fname := jsfNameFromVar n in
      let fnamei := name_end fname in
      let fname := set_c fname fnamei chunk in
      let f := new_StorageFile n in
      let offset := 0 in
      let (found, header) := jsfFindFile fl fname in
      let addr := uint32_t found in
      let erased :=
        if (mode =? ch_w) && negb (addr =? 0)
        then match jswrap_storagefile_erase fuel fl f with
             | None => None
             | Some (fl', f') => Some (fl', f', 0)
             end
        else Some (fl, f, addr) in
      match erased with
      | None => None
      | Some (fl, f, addr) =>
          let appended :=
            if mode =? ch_a
            then open_append fuel fl fname fnamei chunk offset addr header
            else Some (chunk, offset, addr) in
          match appended with
          | None => None
          | Some (chunk, offset, addr) =>
              let f := set_chunk f chunk in
              let f := set_offset f offset in
              let f := set_addr f addr in
              let f := set_mode f mode in
              Some (fl, Some f, None)
          end
      end
  end.

(** ** StorageFile.read and StorageFile.readLine *)

(** The [for] loop over the buffer: [Some (l, newline)] when it leaves with
    [break], where [l] is the new value of both [l] and [len] and [newline]
    tells that [isReadLine] was cleared; [None] when it runs to the end. *)
Fixpoint read_scan (isReadLine : bool) (buf : bytes) (i : Z)
  : option (Z * bool) :=
  match buf with
  | [] => None
  | b :: rest =>
      if b =? 255 then Some (i, false)
      else if isReadLine && (b =? ch_newline) then Some (i + 1, true)
      else read_scan isReadLine rest (i + 1)
  end.

(** [jsvAppendStringBuf(result, buf, l)] after [result] was created when
    it was still 0. *)
Definition append_result (result : option bytes) (buf : bytes) (l : Z)
  : option bytes :=
  Some (match result with None => [] | Some r => r end
        ++ firstn (Z.to_nat l) buf).

(** [if (remaining<=0) { ... }], the step to the next page: the new
    handle, [fname], [offset], [chunk], [addr] and [remaining], and whether
    the function returns there ([if (!addr) return result;]). *)
Definition next_page (fl : flash) (f : StorageFile) (fname : JsfFileName)
    (fnamei : nat) (offset chunk addr remaining : Z)
  : StorageFile * JsfFileName * Z * Z * Z * Z * bool :=
  if remaining <=? 0 then
    let offset := 0 in
    let '(chunk, fname, addr) :=
      if chunk =? 255 then (chunk, fname, 0)
      else
        let chunk := chunk + 1 in
        let fname := set_c fname fnamei chunk in
        (chunk, fname, uint32_t (fst (jsfFindFile fl fname))) in
    let f := set_addr f addr in
    let f := set_offset f offset in
    let f := set_chunk f chunk in
    let remaining := STORAGEFILE_CHUNKSIZE in
    (f, fname, offset, chunk, addr, remaining, addr =? 0)
  else (f, fname, offset, chunk, addr, remaining, false).

(** [while (len) { ... }] followed by the final store of [offset]; the
    buffer holds 32 bytes. *)
Fixpoint read_loop (fuel : nat) (fl : flash) (f : StorageFile)
    (fname : JsfFileName) (fnamei : nat) (isReadLine : bool)
    (len offset chunk addr : Z) (result : option bytes)
  : option (StorageFile * option bytes) :=
  match fuel with
  | O => None
  | S fuel' =>
      if len =? 0 then Some (set_offset f offset, result)
      else
        let remaining := STORAGEFILE_CHUNKSIZE - offset in
        let '(f, fname, offset, chunk, addr, remaining, stop) :=
          next_page fl f fname fnamei offset chunk addr remaining in
        if stop then Some (f, result)
        else
          let l := len in
          let l := if l >? 32 then 32 else l in
          let l := if l >? remaining then remaining else l in
          let buf := jshFlashRead fl (uint32_t (addr + offset)) l in
          let '(l, len, isReadLine) :=
            match read_scan isReadLine buf 0 with
            | Some (i, newline) =>
                (i, i, if newline then false else isReadLine)
            | None => (l, len, isReadLine)
            end in
          if l =? 0 then Some (set_offset f offset, result)
          else
            let result := append_result result buf l in
            let len := len - l in
            let offset := offset + l in
            let len := if isReadLine then 32 else len in
            read_loop fuel' fl f fname fnamei isReadLine len offset chunk
                      addr result
  end.

Definition jswrap_storagefile_read_internal (fuel : nat) (fl : flash)
    (f : StorageFile) (len : Z)
  : option (StorageFile * option bytes * option JsException) :=
  let isReadLine := len <? 0 in
  let mode := char (sf_mode f) in
  if negb (mode =? ch_r)
  then Some (f, None, Some read_error)
  else
    let addr := uint32_t (sf_addr f) in
    if addr =? 0 then Some (f, None, None)
    else
      let offset := sf_offset f in
      let chunk := sf_chunk f in
      let fname := jsfNameFromVar (sf_name f) in
      let fnamei := name_end fname in
      let fname := set_c fname fnamei chunk in
      let len := if isReadLine then 32 else len in
      match read_loop fuel fl f fname fnamei isReadLine len offset chunk
                      addr None with
      | None => None
      | Some (f, result) => Some (f, result, None)
      end.

Definition jswrap_storagefile_read (fuel : nat) (fl : flash)
    (f : StorageFile) (len : Z) :=
  let len := if len <? 0 then 0 else len in
  jswrap_storagefile_read_internal fuel fl f len.

Definition jswrap_storagefile_readLine (fuel : nat) (fl : flash)
    (f : StorageFile) :=
  jswrap_storagefile_read_internal fuel fl f (-1).

(** ** StorageFile.write *)

Definition jswrap_storagefile_write (fl : flash) (f : StorageFile)
    (_data : JsVar) : flash * StorageFile * option JsException :=
  let mode := char (sf_mode f) in
  if negb (mode =? ch_w) && negb (mode =? ch_a)
  then (fl, f, Some write_error)
  else
    match jsvAsString _data with
    | None => (fl, f, None)
    | Some data =>
        let len := Z.of_nat (length data) in
        if len =? 0 then (fl, f, None)
        else
          let offset := sf_offset f in
          let chunk := sf_chunk f in
          let fname := jsfNameFromVar (sf_name f) in
          let fnamei := name_end fname in
          let fname := set_c fname fnamei chunk in
          let addr := uint32_t (sf_addr f) in
          let remaining := STORAGEFILE_CHUNKSIZE - offset in
          if addr =? 0 then
            let (fl, ok) :=
              jsfWriteFile fl fname (jsvNewFromString data) JSFF_NONE 0
                           STORAGEFILE_CHUNKSIZE in
            if ok then
              let addr := uint32_t (fst (jsfFindFile fl fname)) in
              let offset := len in
              let f := set_offset f offset in
              let f := set_addr f addr in
              (fl, f, None)
            else (fl, f, None)
          else if len <? size_t remaining then
            let fl := jswrap_flash_write fl data (uint32_t (addr + offset)) in
            let offset := offset + len in
            let f := set_offset f offset in
            (fl, f, None)
          else
            let part := jsvNewFromStringVar data 0 (size_t remaining) in
            let fl := jswrap_flash_write fl part (uint32_t (addr + offset)) in
            if chunk =? 255
            then (fl, f, Some (JSET_ERROR "File too big!"))
            else
              let chunk := chunk + 1 in
              let fname := set_c fname fnamei chunk in
              let f := set_chunk f chunk in
              let part :=
                jsvNewFromStringVar data (size_t remaining)
                                    JSVAPPENDSTRINGVAR_MAXLENGTH in
              let (fl, ok) :=
                jsfWriteFile fl fname (jsvNewFromString part) JSFF_NONE 0
                             STORAGEFILE_CHUNKSIZE in
              if ok then
                let addr := uint32_t (fst (jsfFindFile fl fname)) in
                let offset := len in
                let f := set_offset f offset in
                let f := set_addr f addr in
                let offset := Z.of_nat (length part) in
                let f := set_offset f offset in
                (fl, f, None)
              else (fl, f, None)
    end.

End Wrappers.

(** ** A simulated store

    Modelled from the spec: the journal store of jsflash.c, the flash
    driver and the interpreter's variables, none of which is in
    jswrap_storage.c.  The journal is kept as the list of its records
    (newest first) next to the flash bytes (a map from the addresses that
    were programmed to their bytes); a record is live until it is
    marked deleted, lookup returns the live record of a name, a write with
    [offset = 0] appends a fresh record of [totalSize] bytes (superseding a
    live one of the same name), a write with [offset > 0] fills erased
    bytes of the live record, and programming a byte can only clear bits.
    A JavaScript object is represented by its JSON text. *)

Module Sim.

Inductive Var : Type :=
| VUndefined
| VString (s : bytes)
| VObject (json : bytes).

Record Header : Type := {
  h_size : Z;
  h_name : JsfFileName;
  h_flags : Z
}.

Record Entry : Type := {
  e_addr : Z;
  e_header : Header;
  e_live : bool
}.

Record Flash : Type := {
  journal : list Entry;
  tail : Z;
  cells : PositiveMap.t Z
}.

Definition FLASH_START : Z := 4096.
Definition FLASH_LENGTH : Z := 16384.
Definition sizeof_JsfFileHeader : Z := 16.
Definition CHUNKSIZE : Z := 32.

Definition erased : Flash :=
  {| journal := []; tail := FLASH_START; cells := PositiveMap.empty Z |}.

Fixpoint bytes_eqb (a b : bytes) : bool :=
  match a, b with
  | [], [] => true
  | x :: a', y :: b' => (x =? y) && bytes_eqb a' b'
  | _, _ => false
  end.

Definition is_live (name : JsfFileName) (e : Entry) : bool :=
  e_live e && bytes_eqb (h_name (e_header e)) name.

Definition findEntry (fl : Flash) (name : JsfFileName) : option Entry :=
  find (is_live name) (journal fl).

(** Modelled from the spec: [findFile(name)] returns the address and the
    header of the live record of that name, or address 0. *)
Definition findFile (fl : Flash) (name : JsfFileName) : Z * Header :=
  match findEntry fl name with
  | Some e => (e_addr e, e_header e)
  | None => (0, {| h_size := 0; h_name := name; h_flags := 0 |})
  end.

Fixpoint mark_deleted (name : JsfFileName) (j : list Entry) : list Entry :=
  match j with
  | [] => []
  | e :: rest =>
      if is_live name e
      then {| e_addr := e_addr e; e_header := e_header e; e_live := false |}
           :: rest
      else e :: mark_deleted name rest
  end.

(** Modelled from the spec: [eraseFile(name)] marks the live record
    deleted and returns true iff a live record existed. *)
Definition eraseFile (fl : Flash) (name : JsfFileName) : Flash * bool :=
  match findEntry fl name with
  | Some _ =>
      ({| journal := mark_deleted name (journal fl); tail := tail fl;
          cells := cells fl |}, true)
  | None => (fl, false)
  end.

(** The byte at address [a]: [0xFF] unless it was programmed. *)
Definition mem (m : PositiveMap.t Z) (a : Z) : Z :=
  if a <=? 0 then 255
  else match PositiveMap.find (Z.to_pos a) m with
       | Some b => b
       | None => 255
       end.

(** Modelled from the spec: [flashWrite(addr, bytes)] programs [data]
    from [addr] on; bits can only be cleared. *)
Fixpoint program (m : PositiveMap.t Z) (data : bytes) (addr : Z)
  : PositiveMap.t Z :=
  match data with
  | [] => m
  | b :: rest =>
      program (PositiveMap.add (Z.to_pos addr) (Z.land (mem m addr) b) m)
              rest (addr + 1)
  end.

Definition byte_at (fl : Flash) (a : Z) : Z := mem (cells fl) a.

Definition flash_write (fl : Flash) (data : bytes) (addr : Z) : Flash :=
  {| journal := journal fl; tail := tail fl;
     cells := program (cells fl) data addr |}.

Definition read_bytes (fl : Flash) (addr len : Z) : bytes :=
  map (fun i => byte_at fl (addr + Z.of_nat i)) (seq 0 (Z.to_nat len)).

Definition var_bytes (v : Var) : option bytes :=
  match v with
  | VString s => Some s
  | _ => None
  end.

Definition align4 (n : Z) : Z := (n + 3) / 4 * 4.

(** Modelled from the spec: a new record is appended at the journal
    write pointer, header first, when the region has room for it. *)
Definition createFile (fl : Flash) (name : JsfFileName) (flags size : Z)
    (data : bytes) : Flash * bool :=
  let addr := tail fl + sizeof_JsfFileHeader in
  if addr + align4 size <=? FLASH_START + FLASH_LENGTH then
    let e := {| e_addr := addr;
                e_header := {| h_size := size; h_name := name;
                               h_flags := flags |};
                e_live := true |} in
    ({| journal := e :: journal fl; tail := addr + align4 size;
        cells := program (cells fl) data addr |}, true)
  else (fl, false).

(** Modelled from the spec: [writeFile(name, data, flags, offset,
    totalSize)].  With [totalSize = 0] the body is as long as the data;
    [offset = 0] creates the record, superseding a live one; [offset > 0]
    fills bytes of the live record that are still erased. *)
Definition writeFile (fl : Flash) (name : JsfFileName) (data : Var)
    (flags offset totalSize : Z) : Flash * bool :=
  match var_bytes data with
  | None => (fl, false)
  | Some d =>
      let len := Z.of_nat (length d) in
      if (offset <? 0) || (totalSize <? 0) then (fl, false)
      else
        let size := if totalSize =? 0 then len else totalSize in
        if offset =? 0 then
          if len <=? size
          then createFile (fst (eraseFile fl name)) name flags size d
          else (fl, false)
        else
          match findEntry fl name with
          | None => (fl, false)
          | Some e =>
              let target := read_bytes fl (e_addr e + offset) len in
              if (offset + len <=? h_size (e_header e))
                 && ((totalSize =? 0) || (totalSize =? h_size (e_header e)))
                 && forallb (Z.eqb 255) target
              then (flash_write fl d (e_addr e + offset), true)
              else (fl, false)
          end
  end.

(** Modelled from the spec: [readFile(name)] is the body of the live
    record, or nothing. *)
Definition readFile (fl : Flash) (name : JsfFileName) : option Var :=
  match findEntry fl name with
  | Some e => Some (VString (read_bytes fl (e_addr e) (h_size (e_header e))))
  | None => None
  end.

Definition isStringEqual (v : Var) (s : string) : bool :=
  match v with
  | VString b => bytes_eqb b (bytes_of_string s)
  | _ => false
  end.

Definition isObject (v : Var) : bool :=
  match v with
  | VObject _ => true
  | _ => false
  end.

Definition asString (v : Var) : option bytes :=
  match v with
  | VUndefined => Some (bytes_of_string "undefined")
  | VString s => Some s
  | VObject _ => Some (bytes_of_string "[object Object]")
  end.

Definition json_stringify (v : Var) : Var :=
  match v with
  | VUndefined => VUndefined
  | VString s => VString ([34] ++ s ++ [34])
  | VObject json => VString json
  end.

Definition json_parse (v : Var) : option Var :=
  match v with
  | VString s => Some (VObject s)
  | _ => None
  end.

#[export] Instance externals : Externals := {|
  JsVar := Var;
  jsvIsStringEqual := isStringEqual;
  jsvIsObject := isObject;
  jsvAsString := asString;
  jsvNewFromString := VString;
  jswrap_json_stringify := json_stringify;
  jswrap_json_parse := json_parse;
  flash := Flash;
  JsfFileHeader := Header;
  JsfFileFlags := Z;
  JSFF_NONE := 0;
  STORAGEFILE_CHUNKSIZE := CHUNKSIZE;
  flash_byte := byte_at;
  jsfFindFile := findFile;
  jsfGetFileSize := h_size;
  jsfReadFile := readFile;
  jsfWriteFile := writeFile;
  jsfEraseFile := eraseFile;
  jswrap_flash_write := flash_write
|}.

End Sim.

(** ** The stream as a sequence of bytes

    The statements about [open], [read] and [readLine] compare the handle
    with the bytes of the stream as they lie in flash: the rest of the
    current chunk followed by the bodies of the next chunks, up to the
    first chunk that is missing or to chunk 255. *)

Section Views.

Context {E : Externals}.

Definition is_data (b : Z) : bool := negb (b =? 255).

Fixpoint take_while (p : Z -> bool) (s : bytes) : bytes :=
  match s with
  | [] => []
  | b :: rest => if p b then b :: take_while p rest else []
  end.

(** The bytes before the first [0xFF]. *)
Definition data_prefix (s : bytes) : bytes := take_while is_data s.

(** The bytes up to and including the first newline. *)
Fixpoint upto_newline (s : bytes) : bytes :=
  match s with
  | [] => []
  | b :: rest => if b =? ch_newline then [b] else b :: upto_newline rest
  end.

(** What a read with budget [len] is expected to return from the stream
    [s], and what a readLine is. *)
Definition expected_read (isReadLine : bool) (len : Z) (s : bytes) : bytes :=
  if isReadLine then upto_newline (data_prefix s)
  else firstn (Z.to_nat len) (data_prefix s).

Definition result_of (b : bytes) : option bytes :=
  match b with
  | [] => None
  | _ => Some b
  end.

Definition bytes_of_result (r : option bytes) : bytes :=
  match r with
  | None => []
  | Some b => b
  end.

(** The result after [b] more bytes were appended to it, if any. *)
Definition extend (result : option bytes) (b : bytes) : option bytes :=
  match b with
  | [] => result
  | _ => Some (match result with None => [] | Some r => r end ++ b)
  end.

(** The body of the chunk at [addr], from [offset] to its end. *)
Definition chunk_rest (fl : flash) (addr offset : Z) : bytes :=
  jshFlashRead fl (uint32_t (addr + offset)) (STORAGEFILE_CHUNKSIZE - offset).

(** The name of chunk number [chunk] of the stream called [name]. *)
Definition chunk_name (name : bytes) (chunk : Z) : JsfFileName :=
  let fname := jsfNameFromVar name in
  set_c fname (name_end fname) chunk.

(** The bodies of the chunks [256 - n], ..., [255], up to the first one
    that is missing. *)
Fixpoint chunks_from (fl : flash) (name : bytes) (n : nat) : bytes :=
  match n with
  | O => []
  | S n' =>
      let addr :=
        uint32_t (fst (jsfFindFile fl (chunk_name name (256 - Z.of_nat n)))) in
      if addr =? 0 then []
      else chunk_rest fl addr 0 ++ chunks_from fl name n'
  end.

(** The bytes ahead of a handle. *)
Definition stream_from (fl : flash) (f : StorageFile) : bytes :=
  let addr := uint32_t (sf_addr f) in
  if addr =? 0 then []
  else chunk_rest fl addr (sf_offset f)
       ++ chunks_from fl (sf_name f) (Z.to_nat (255 - sf_chunk f)).

(** The whole stream called [name]. *)
Definition stream_bytes (fl : flash) (name : bytes) : bytes :=
  chunks_from fl name 255.

(** Every chunk found among [256 - n], ..., [255] before the first missing
    one has a body of [STORAGEFILE_CHUNKSIZE] bytes. *)
Fixpoint chunks_sized (fl : flash) (name : bytes) (n : nat) : bool :=
  match n with
  | O => true
  | S n' =>
      let (found, header) :=
        jsfFindFile fl (chunk_name name (256 - Z.of_nat n)) in
      if uint32_t found =? 0 then true
      else (jsfGetFileSize header =? STORAGEFILE_CHUNKSIZE)
           && chunks_sized fl name n'
  end.

(** Everything after the first [0xFF] is erased. *)
Definition erased_tail (s : bytes) : bool :=
  forallb (Z.eqb 255) (skipn (length (data_prefix s)) s).

Definition count_data (s : bytes) : Z :=
  Z.of_nat (length (filter is_data s)).

(** The handle is positioned inside the chunk range. *)
Definition handle_ok (f : StorageFile) : Prop :=
  0 <= sf_offset f <= STORAGEFILE_CHUNKSIZE /\ 1 <= sf_chunk f <= 255.

(** [n] successive calls of readLine. *)
Fixpoint readLines (n fuel : nat) (fl : flash) (f : StorageFile)
  : option (list (option bytes)) :=
  match n with
  | O => Some []
  | S n' =>
      match jswrap_storagefile_readLine fuel fl f with
      | None => None
      | Some (f', r, _) =>
          match readLines n' fuel fl f' with
          | None => None
          | Some rs => Some (r :: rs)
          end
      end
  end.

(** The flash after the chunks [first], ..., [first + k - 1] of the stream
    [name] were erased one after the other. *)
Fixpoint erase_chunks (k : nat) (fl : flash) (name : bytes) (first : Z)
  : flash :=
  match k with
  | O => fl
  | S k' =>
      erase_chunks k' (fst (jsfEraseFile fl (chunk_name name first))) name
                   (first + 1)
  end.

(** Whether each of these [k] calls found a file to erase. *)
Fixpoint chunks_erased (k : nat) (fl : flash) (name : bytes) (first : Z)
  : bool :=
  match k with
  | O => true
  | S k' =>
      snd (jsfEraseFile fl (chunk_name name first))
      && chunks_erased k' (fst (jsfEraseFile fl (chunk_name name first))) name
                       (first + 1)
  end.

End Views.

(** ** Scenarios on the simulated store *)

Module Scenario.

Import Sim.

Definition log : bytes := bytes_of_string "log".

Definition str (s : string) : Var := VString (bytes_of_string s).

(** Thirty-two times the letter x: one full chunk. *)
Definition block : bytes := repeat 120 32.

Fixpoint write_blocks (n : nat) (fl : Flash) (f : StorageFile)
  : Flash * StorageFile :=
  match n with
  | O => (fl, f)
  | S n' =>
      let '(fl', f', _) := jswrap_storagefile_write fl f (VString block) in
      write_blocks n' fl' f'
  end.

(** [Storage.write("log", "data")] on erased flash. *)
Definition with_plain_log : Flash :=
  fst (jswrap_storage_write erased log (str "data") 0 0).

(** [Storage.open(name, "w")] followed by [n] writes of a full block: the
    flash and the handle afterwards. *)
Definition blocks_on (name : bytes) (n : nat) (fl0 : Flash)
  : option (Flash * StorageFile) :=
  match jswrap_storage_open 1 fl0 name (str "w") with
  | Some (fl, Some f, None) => Some (write_blocks n fl f)
  | _ => None
  end.

Definition stream_of_blocks (n : nat) (fl0 : Flash)
  : option (Flash * StorageFile) :=
  blocks_on log n fl0.

Definition flash_of (st : option (Flash * StorageFile)) : Flash :=
  match st with
  | Some (fl, _) => fl
  | None => erased
  end.

Definition handle_of (st : option (Flash * StorageFile)) : StorageFile :=
  match st with
  | Some (_, f) => f
  | None => new_StorageFile []
  end.

(** One full chunk, then eight more bytes. *)
Definition forty_bytes : option (Flash * StorageFile) :=
  match stream_of_blocks 1 erased with
  | Some (fl, f) =>
      let '(fl', f', _) :=
        jswrap_storagefile_write fl f (VString (repeat 120 8)) in
      Some (fl', f')
  | None => None
  end.

(** All 255 chunks full. *)
Definition full_stream : option (Flash * StorageFile) :=
  stream_of_blocks 255 erased.

(** Chunks 1 to 254 full, then eight bytes in chunk 255. *)
Definition almost_full : option (Flash * StorageFile) :=
  match stream_of_blocks 254 erased with
  | Some (fl, f) =>
      let '(fl', f', _) :=
        jswrap_storagefile_write fl f (VString (repeat 120 8)) in
      Some (fl', f')
  | None => None
  end.

(** Thirty bytes, all different. *)
Definition thirty_bytes : bytes :=
  bytes_of_string "abcdefghijklmnopqrstuvwxyz0123".

(** The plain file "log" next to the stream "log" with all 255 chunks. *)
Definition full_stream_and_file : option (Flash * StorageFile) :=
  stream_of_blocks 255 with_plain_log.

(** Enough fuel for every loop on a stream of 255 chunks of 32 bytes. *)
Definition fuel : nat := Z.to_nat 8200.

(** The stream of one block, and what erase leaves of it. *)
Definition one_block : option (Flash * StorageFile) :=
  stream_of_blocks 1 erased.

Definition after_erase : Flash * StorageFile :=
  match jswrap_storagefile_erase fuel (flash_of one_block)
                                 (handle_of one_block) with
  | Some r => r
  | None => (erased, new_StorageFile [])
  end.

(** An object, given by its JSON text. *)
Definition an_object : Var := VObject (bytes_of_string "{a:1}").

Definition long_name : bytes := bytes_of_string "abcdefgh".
Definition short_name : bytes := bytes_of_string "abcdefg".

(** The stream "abcdefg" holding one block. *)
Definition short_stream : Flash := flash_of (blocks_on short_name 1 erased).

(** "one\ntwo\nthree" *)
Definition three_lines : bytes :=
  bytes_of_string "one" ++ [10] ++ bytes_of_string "two" ++ [10]
  ++ bytes_of_string "three".

(** The flash after opening a fresh stream for writing and writing
    [three_lines] to it. *)
Definition lines_written : option Flash :=
  match jswrap_storage_open 1 erased log (str "w") with
  | Some (fl, Some f, None) =>
      Some (fst (fst (jswrap_storagefile_write fl f (VString three_lines))))
  | _ => None
  end.

(** Four calls of readLine on that stream, opened for reading. *)
Definition lines_read : option (list (option bytes)) :=
  match lines_written with
  | Some fl =>
      match jswrap_storage_open 1 fl log (str "r") with
      | Some (_, Some f, None) => readLines 4 64 fl f
      | _ => None
      end
  | None => None
  end.

Definition lines_flash : Flash :=
  match lines_written with
  | Some fl => fl
  | None => erased
  end.

(** The handle that [Storage.open("log", "r")] returns on [lines_flash]. *)
Definition lines_handle : StorageFile :=
  {| sf_name := log; sf_chunk := 1; sf_offset := 0; sf_addr := 4112;
     sf_mode := ch_r |}.

(** The handle on [lines_flash] once all the data were read. *)
Definition lines_end : StorageFile :=
  {| sf_name := log; sf_chunk := 1; sf_offset := 13; sf_addr := 4112;
     sf_mode := ch_r |}.

(** What [Storage.open("log", "w")] returns on the stream of one block. *)
Definition reopened : Flash * option StorageFile * option JsException :=
  match jswrap_storage_open fuel (flash_of one_block) log (str "w") with
  | Some r => r
  | None => (erased, None, None)
  end.

End Scenario.

(** * Properties *)

Section Proofs.

Context {E : Externals}.

(** ** Names and integer conversions *)

Lemma take_firstn (n : Z) (l : bytes) : take n l = firstn (Z.to_nat n) l.
Proof.
  revert n; induction l as [|b l IH]; intros n; simpl.
  - now rewrite firstn_nil.
  - destruct (Z.leb_spec n 0) as [Hn|Hn].
    + replace (Z.to_nat n) with O by lia. reflexivity.
    + replace (Z.to_nat n) with (S (Z.to_nat (n - 1))) by lia.
      simpl. now rewrite IH.
Qed.

Lemma take_all (n : Z) (l : bytes) :
  Z.of_nat (length l) <= n -> take n l = l.
Proof.
  intros H. rewrite take_firstn. apply firstn_all2. lia.
Qed.

Lemma set_c_twice (fname : JsfFileName) (i : nat) (a b : Z) :
  set_c (set_c fname i a) i b = set_c fname i b.
Proof.
  revert i; induction fname as [|h t IH]; intros [|i]; simpl; trivial.
  now rewrite IH.
Qed.

Lemma uint32_t_idem (z : Z) : uint32_t (uint32_t z) = uint32_t z.
Proof. unfold uint32_t. apply Z.mod_mod. lia. Qed.

Lemma uint32_t_add_l (a b : Z) : uint32_t (uint32_t a + b) = uint32_t (a + b).
Proof. unfold uint32_t. apply Zplus_mod_idemp_l. Qed.

Lemma size_t_small (z : Z) : 0 <= z < 2 ^ 32 -> size_t z = z.
Proof. intros H. unfold size_t. now apply Z.mod_small. Qed.

(** ** Storage.readJSON *)

(** C8: readJSON(name) is the external JSON parser applied to the result
    of read(name), and is nothing when read(name) is nothing. *)
Theorem readJSON_is_parse_of_read (fl : flash) (name : bytes) :
  jswrap_storage_readJSON fl name =
  match jswrap_storage_read fl name with
  | None => None
  | Some v => jswrap_json_parse v
  end.
Proof. reflexivity. Qed.

(** ** Storage.write *)

(** C9: when the data is an object, the journal store receives its JSON
    text at offset 0 with size 0, whatever offset and size the caller gave;
    the call cannot be told apart from the one with offset 0 and size 0. *)
Theorem write_object_ignores_offset_and_size
    (fl : flash) (name : bytes) (data : JsVar) (offset size : Z) :
  jsvIsObject data = true ->
  jswrap_storage_write fl name data offset size =
    jsfWriteFile fl (jsfNameFromVar name) (jswrap_json_stringify data)
                 JSFF_NONE 0 0
  /\ jswrap_storage_write fl name data offset size =
     jswrap_storage_write fl name data 0 0.
Proof.
  intros H. unfold jswrap_storage_write. rewrite H. split; reflexivity.
Qed.

(** ** Wrong mode *)

Lemma read_internal_wrong_mode (fuel : nat) (fl : flash) (f : StorageFile)
    (len : Z) :
  char (sf_mode f) <> ch_r ->
  jswrap_storagefile_read_internal fuel fl f len =
    Some (f, None, Some read_error).
Proof.
  intros H. unfold jswrap_storagefile_read_internal.
  destruct (Z.eqb_spec (char (sf_mode f)) ch_r); [contradiction|reflexivity].
Qed.

Lemma write_wrong_mode (fl : flash) (f : StorageFile) (data : JsVar) :
  char (sf_mode f) <> ch_w -> char (sf_mode f) <> ch_a ->
  jswrap_storagefile_write fl f data = (fl, f, Some write_error).
Proof.
  intros Hw Ha. unfold jswrap_storagefile_write.
  destruct (Z.eqb_spec (char (sf_mode f)) ch_w); [contradiction|].
  destruct (Z.eqb_spec (char (sf_mode f)) ch_a); [contradiction|].
  reflexivity.
Qed.

(** C6: read and readLine on a handle whose mode is not 'r', and write on
    a handle whose mode is neither 'w' nor 'a', raise the wrong-mode error
    and leave the handle and the flash as they were.  (The read functions
    only ever read the flash; write returns it unchanged.) *)
Theorem wrong_mode_is_rejected (fl : flash) (f : StorageFile) :
  (char (sf_mode f) <> ch_r ->
   forall (fuel : nat) (len : Z),
     jswrap_storagefile_read fuel fl f len = Some (f, None, Some read_error)
     /\ jswrap_storagefile_readLine fuel fl f
        = Some (f, None, Some read_error))
  /\ (char (sf_mode f) <> ch_w -> char (sf_mode f) <> ch_a ->
      forall data : JsVar,
        jswrap_storagefile_write fl f data = (fl, f, Some write_error)).
Proof.
  split.
  - intros H fuel len. split.
    + unfold jswrap_storagefile_read. now apply read_internal_wrong_mode.
    + unfold jswrap_storagefile_readLine. now apply read_internal_wrong_mode.
  - intros Hw Ha data. now apply write_wrong_mode.
Qed.

(** ** StorageFile.erase *)

Lemma erase_resets_handle (fuel : nat) (fl fl' : flash) (f f' : StorageFile) :
  jswrap_storagefile_erase fuel fl f = Some (fl', f') ->
  f' = {| sf_name := sf_name f; sf_chunk := 1; sf_offset := 0; sf_addr := 0;
          sf_mode := 0 |}.
Proof.
  unfold jswrap_storagefile_erase.
  destruct (erase_loop _ _ _ _ _); [|discriminate].
  intros H. injection H as _ <-. reflexivity.
Qed.

(** One turn of the erase loop. *)
Lemma erase_loop_step (fuel : nat) (fl : flash) (fname : JsfFileName)
    (fnamei : nat) (chunk : Z) :
  erase_loop (S fuel) fl fname fnamei chunk
  = if snd (jsfEraseFile fl (set_c fname fnamei chunk))
    then erase_loop fuel (fst (jsfEraseFile fl (set_c fname fnamei chunk)))
                    (set_c fname fnamei chunk) fnamei (chunk + 1)
    else Some (fst (jsfEraseFile fl (set_c fname fnamei chunk))).
Proof.
  cbn [erase_loop].
  now destruct (jsfEraseFile fl (set_c fname fnamei chunk)) as [fl' [|]].
Qed.

Lemma strip_zeros_zero (fname : JsfFileName) (k : nat) :
  nth k fname 0 = 0 -> nth (strip_zeros fname k) fname 0 = 0.
Proof.
  induction k as [|k IH]; intros H; simpl; [exact H|].
  destruct (Z.eqb_spec (nth k fname 0) 0) as [Hz|Hz]; [now apply IH|exact H].
Qed.

Lemma set_c_zero (fname : JsfFileName) (i : nat) :
  nth i fname 0 = 0 -> set_c fname i 256 = fname.
Proof.
  revert i; induction fname as [|h t IH]; intros [|i] H; simpl; trivial.
  - simpl in H. now subst h.
  - simpl in H. now rewrite IH.
Qed.

(** The loop of erase has no bound on [chunk]: when chunks 1 to 255 were
    all erased, the next turn sets the chunk byte to [(char)256 = 0], and
    for a name of at most seven bytes the file name is then the bare name
    of the stream: that file is erased next. *)
Lemma chunk_256_is_bare_name (name : bytes) :
  (length name <= 7)%nat -> chunk_name name 256 = jsfNameFromVar name.
Proof.
  intros Hlen. unfold chunk_name, name_end.
  apply set_c_zero, strip_zeros_zero.
  unfold jsfNameFromVar.
  do 8 (destruct name as [|? name]; [reflexivity|]).
  simpl in Hlen. lia.
Qed.

(** C10: once erase has completed, read, readLine and write on the handle
    it leaves behind raise the wrong-mode error, whatever the flash holds,
    and leave the handle and the flash unchanged: the mode is 0, which is
    neither 'r' nor 'w' nor 'a'. *)
Theorem operations_after_erase_fail
    (fuel : nat) (fl fl' : flash) (f f' : StorageFile) :
  jswrap_storagefile_erase fuel fl f = Some (fl', f') ->
  sf_mode f' = 0
  /\ forall (fuel2 : nat) (fl2 : flash) (len : Z) (data : JsVar),
       jswrap_storagefile_read fuel2 fl2 f' len
         = Some (f', None, Some read_error)
       /\ jswrap_storagefile_readLine fuel2 fl2 f'
          = Some (f', None, Some read_error)
       /\ jswrap_storagefile_write fl2 f' data = (fl2, f', Some write_error).
Proof.
  intros H. apply erase_resets_handle in H. subst f'.
  split; [reflexivity|]. intros fuel2 fl2 len data.
  split; [|split].
  - unfold jswrap_storagefile_read. apply read_internal_wrong_mode.
    simpl. vm_compute. discriminate.
  - unfold jswrap_storagefile_readLine. apply read_internal_wrong_mode.
    simpl. vm_compute. discriminate.
  - apply write_wrong_mode; simpl; vm_compute; discriminate.
Qed.

End Proofs.

Section OpenAndWrite.

Context {E : Externals}.

Lemma open_mode_none (modeVar : JsVar) :
  jsvIsStringEqual modeVar "r" = false ->
  jsvIsStringEqual modeVar "w" = false ->
  jsvIsStringEqual modeVar "a" = false ->
  open_mode modeVar = None.
Proof. intros Hr Hw Ha. unfold open_mode. now rewrite Hr, Hw, Ha. Qed.

Lemma open_mode_some (modeVar : JsVar) (mode : Z) :
  open_mode modeVar = Some mode -> mode = ch_r \/ mode = ch_w \/ mode = ch_a.
Proof.
  unfold open_mode.
  destruct (jsvIsStringEqual modeVar "r"); [intros [= <-]; auto|].
  destruct (jsvIsStringEqual modeVar "w"); [intros [= <-]; auto|].
  destruct (jsvIsStringEqual modeVar "a"); [intros [= <-]; auto|].
  discriminate.
Qed.

(** When the seventh byte of the name is not 0, the chunk number takes the
    place of the eighth byte: the chunk files of a long name are those of
    its first seven bytes. *)
Lemma chunk_name_long (name : bytes) (chunk : Z) :
  nth 6 name 0 <> 0 ->
  chunk_name (take 8 name) chunk = firstn 7 name ++ [char chunk].
Proof.
  intros H.
  destruct name as [|b0 [|b1 [|b2 [|b3 [|b4 [|b5 [|b6 rest]]]]]]];
    try (simpl in H; congruence).
  simpl in H.
  unfold chunk_name, name_end.
  assert (Hn : jsfNameFromVar (take 8 (b0 :: b1 :: b2 :: b3 :: b4 :: b5 :: b6 :: rest))
               = [b0; b1; b2; b3; b4; b5; b6; nth 0 rest 0]).
  { destruct rest as [|b7 rest]; reflexivity. }
  rewrite Hn. simpl.
  destruct (Z.eqb_spec b6 0); [contradiction|]. reflexivity.
Qed.

(** C4 (as the code has it): a mode other than 'r', 'w' and 'a' raises the
    invalid-mode error, leaves the flash as it was and builds no handle.
    The length of the name is never checked: with a valid mode no error is
    raised and a handle is built that holds the first eight bytes of the
    name (for mode 'r' the call always returns, with the flash untouched),
    and when the seventh byte is not 0 the chunk number overwrites the
    eighth. *)
Theorem open_rejects_only_invalid_mode
    (fuel : nat) (fl : flash) (name : bytes) (modeVar : JsVar) :
  (jsvIsStringEqual modeVar "r" = false ->
   jsvIsStringEqual modeVar "w" = false ->
   jsvIsStringEqual modeVar "a" = false ->
   jswrap_storage_open fuel fl name modeVar
     = Some (fl, None, Some (JSET_ERROR "Invalid mode %j")))
  /\ (jsvIsStringEqual modeVar "r" = true ->
      jswrap_storage_open fuel fl name modeVar =
        Some (fl,
              Some {| sf_name := take 8 name; sf_chunk := 1; sf_offset := 0;
                      sf_addr :=
                        uint32_t
                          (fst (jsfFindFile fl (chunk_name (take 8 name) 1)));
                      sf_mode := ch_r |},
              None))
  /\ (forall (mode : Z) (fl' : flash) (r : option StorageFile)
             (exn : option JsException),
        open_mode modeVar = Some mode ->
        jswrap_storage_open fuel fl name modeVar = Some (fl', r, exn) ->
        exn = None
        /\ exists f, r = Some f /\ sf_name f = take 8 name /\ sf_mode f = mode)
  /\ (nth 6 name 0 <> 0 ->
      forall chunk : Z,
        chunk_name (take 8 name) chunk = firstn 7 name ++ [char chunk]).
Proof.
  split; [|split; [|split]].
  - intros Hr Hw Ha. unfold jswrap_storage_open.
    now rewrite (open_mode_none _ Hr Hw Ha).
  - intros Hr. unfold jswrap_storage_open, open_mode. rewrite Hr.
    change (jsvNewFromStringVar name 0 8) with (take 8 name).
    fold (chunk_name (take 8 name) 1).
    destruct (jsfFindFile fl (chunk_name (take 8 name) 1)) as [found header].
    reflexivity.
  - intros mode fl' r exn Hm. unfold jswrap_storage_open. rewrite Hm.
    change (jsvNewFromStringVar name 0 8) with (take 8 name).
    destruct (jsfFindFile fl _) as [found header].
    destruct ((mode =? ch_w) && negb (uint32_t found =? 0)).
    + destruct (jswrap_storagefile_erase fuel fl _) as [[fl1 f1]|] eqn:He;
        [|discriminate].
      apply erase_resets_handle in He. subst f1.
      destruct (if mode =? ch_a then _ else _) as [[[c o] a]|];
        [|discriminate].
      intros [= <- <- <-]. split; [reflexivity|]. eexists. split; [reflexivity|].
      split; reflexivity.
    + destruct (if mode =? ch_a then _ else _) as [[[c o] a]|];
        [|discriminate].
      intros [= <- <- <-]. split; [reflexivity|]. eexists. split; [reflexivity|].
      split; reflexivity.
  - intros H chunk. now apply chunk_name_long.
Qed.

(** [if (len==0) return;]: a write of empty data leaves the flash and the
    handle as they are and raises nothing. *)
Lemma write_empty (fl : flash) (f : StorageFile) (_data : JsVar) :
  char (sf_mode f) = ch_w \/ char (sf_mode f) = ch_a ->
  jsvAsString _data = Some [] ->
  jswrap_storagefile_write fl f _data = (fl, f, None).
Proof.
  intros Hmode Hdata. unfold jswrap_storagefile_write. rewrite Hdata.
  destruct Hmode as [-> | ->]; reflexivity.
Qed.

(** The branch of write that fills the current chunk and goes on in the
    next one. *)
Lemma write_split (fl : flash) (f : StorageFile) (_data : JsVar)
    (data : bytes) :
  char (sf_mode f) = ch_w \/ char (sf_mode f) = ch_a ->
  uint32_t (sf_addr f) <> 0 ->
  jsvAsString _data = Some data ->
  data <> [] ->
  STORAGEFILE_CHUNKSIZE < 2 ^ 31 ->
  0 <= sf_offset f <= STORAGEFILE_CHUNKSIZE ->
  STORAGEFILE_CHUNKSIZE - sf_offset f <= Z.of_nat (length data) ->
  let remaining := STORAGEFILE_CHUNKSIZE - sf_offset f in
  let first_part := firstn (Z.to_nat remaining) data in
  let rest :=
    take JSVAPPENDSTRINGVAR_MAXLENGTH (skipn (Z.to_nat remaining) data) in
  let fl1 :=
    jswrap_flash_write fl first_part
                       (uint32_t (uint32_t (sf_addr f) + sf_offset f)) in
  let next := chunk_name (sf_name f) (sf_chunk f + 1) in
  let allocated :=
    jsfWriteFile fl1 next (jsvNewFromString rest) JSFF_NONE 0
                 STORAGEFILE_CHUNKSIZE in
  (Z.of_nat (length data) <= JSVAPPENDSTRINGVAR_MAXLENGTH ->
   first_part ++ rest = data)
  /\ (sf_chunk f = 255 ->
      jswrap_storagefile_write fl f _data
        = (fl1, f, Some (JSET_ERROR "File too big!")))
  /\ (sf_chunk f <> 255 ->
      jswrap_storagefile_write fl f _data =
        (fst allocated,
         if snd allocated
         then {| sf_name := sf_name f; sf_chunk := sf_chunk f + 1;
                 sf_offset := Z.of_nat (length rest);
                 sf_addr := uint32_t (fst (jsfFindFile (fst allocated) next));
                 sf_mode := sf_mode f |}
         else set_chunk f (sf_chunk f + 1),
         None)).
Proof.
  intros Hmode Haddr Hdata Hne Hcs Hoff Hlen remaining first_part rest fl1
         next allocated.
  assert (Hrem : size_t remaining = remaining).
  { apply size_t_small. subst remaining. lia. }
  assert (Hm : negb (char (sf_mode f) =? ch_w)
               && negb (char (sf_mode f) =? ch_a) = false).
  { destruct Hmode as [-> | ->]; reflexivity. }
  assert (Hl0 : (Z.of_nat (length data) =? 0) = false).
  { apply Z.eqb_neq. destruct data; [congruence|]. simpl length. lia. }
  split; [|split].
  - intros Hmax. subst first_part rest.
    rewrite take_all by (rewrite length_skipn; lia).
    apply firstn_skipn.
  - intros Hc. unfold jswrap_storagefile_write.
    rewrite Hm, Hdata, Hl0.
    destruct (Z.eqb_spec (uint32_t (sf_addr f)) 0); [contradiction|].
    fold remaining. rewrite Hrem.
    destruct (Z.ltb_spec (Z.of_nat (length data)) remaining); [lia|].
    rewrite Hc. simpl (255 =? 255).
    unfold jsvNewFromStringVar. rewrite take_firstn. reflexivity.
  - intros Hc. unfold jswrap_storagefile_write.
    rewrite Hm, Hdata, Hl0.
    destruct (Z.eqb_spec (uint32_t (sf_addr f)) 0); [contradiction|].
    fold remaining. rewrite Hrem.
    destruct (Z.ltb_spec (Z.of_nat (length data)) remaining); [lia|].
    destruct (Z.eqb_spec (sf_chunk f) 255); [contradiction|].
    rewrite set_c_twice.
    unfold jsvNewFromStringVar at 1. rewrite take_firstn.
    simpl (skipn (Z.to_nat 0) data).
    fold first_part. fold fl1.
    unfold jsvNewFromStringVar. fold rest.
    fold (chunk_name (sf_name f) (sf_chunk f + 1)). fold next.
    fold allocated.
    destruct allocated as [fl2 [|]]; reflexivity.
Qed.

(** C5 (as the code has it): on a handle in mode 'w' or 'a', a write of
    empty data returns at once: the flash and the handle are unchanged and
    nothing is raised.  With an allocated chunk, a write of data that are
    not empty, of at least as many bytes as remain in the chunk, programs
    the first [remaining] bytes at the current position; then, if the chunk
    is number 255, it raises "File too big!", and otherwise it sets the
    chunk number to the next one and asks the journal store for that chunk,
    with the rest of the data at offset 0 and a size of
    [STORAGEFILE_CHUNKSIZE]; when that succeeds the handle points at the
    new chunk, just after the rest of the data. *)
Theorem write_fills_chunk_then_allocates_next
    (fl : flash) (f : StorageFile) (_data : JsVar) (data : bytes) :
  char (sf_mode f) = ch_w \/ char (sf_mode f) = ch_a ->
  jsvAsString _data = Some data ->
  (data = [] -> jswrap_storagefile_write fl f _data = (fl, f, None))
  /\ (data <> [] ->
      uint32_t (sf_addr f) <> 0 ->
      STORAGEFILE_CHUNKSIZE < 2 ^ 31 ->
      0 <= sf_offset f <= STORAGEFILE_CHUNKSIZE ->
      STORAGEFILE_CHUNKSIZE - sf_offset f <= Z.of_nat (length data) ->
      let remaining := STORAGEFILE_CHUNKSIZE - sf_offset f in
      let first_part := firstn (Z.to_nat remaining) data in
      let rest :=
        take JSVAPPENDSTRINGVAR_MAXLENGTH (skipn (Z.to_nat remaining) data) in
      let fl1 :=
        jswrap_flash_write fl first_part
                           (uint32_t (uint32_t (sf_addr f) + sf_offset f)) in
      let next := chunk_name (sf_name f) (sf_chunk f + 1) in
      let allocated :=
        jsfWriteFile fl1 next (jsvNewFromString rest) JSFF_NONE 0
                     STORAGEFILE_CHUNKSIZE in
      (Z.of_nat (length data) <= JSVAPPENDSTRINGVAR_MAXLENGTH ->
       first_part ++ rest = data)
      /\ (sf_chunk f = 255 ->
          jswrap_storagefile_write fl f _data
            = (fl1, f, Some (JSET_ERROR "File too big!")))
      /\ (sf_chunk f <> 255 ->
          jswrap_storagefile_write fl f _data =
            (fst allocated,
             if snd allocated
             then {| sf_name := sf_name f; sf_chunk := sf_chunk f + 1;
                     sf_offset := Z.of_nat (length rest);
                     sf_addr :=
                       uint32_t (fst (jsfFindFile (fst allocated) next));
                     sf_mode := sf_mode f |}
             else set_chunk f (sf_chunk f + 1),
             None))).
Proof.
  intros Hmode Hdata. split.
  - intros ->. now apply write_empty.
  - intros Hne Haddr Hcs Hoff Hlen. now apply write_split.
Qed.

End OpenAndWrite.

Section Reading.

Context {E : Externals}.

(** ** Reading flash *)

Lemma jshFlashRead_length (fl : flash) (addr len : Z) :
  length (jshFlashRead fl addr len) = Z.to_nat len.
Proof. unfold jshFlashRead. now rewrite length_map, length_seq. Qed.

Lemma map_seq_add {A : Type} (g : nat -> A) (k j n : nat) :
  map (fun i => g (k + i)%nat) (seq j n) = map g (seq (k + j) n).
Proof.
  revert j; induction n as [|n IH]; intros j; simpl; [reflexivity|].
  f_equal. rewrite IH. now rewrite Nat.add_succ_r.
Qed.

Lemma jshFlashRead_split (fl : flash) (addr l1 l2 : Z) :
  0 <= l1 -> 0 <= l2 ->
  jshFlashRead fl addr (l1 + l2)
  = jshFlashRead fl addr l1 ++ jshFlashRead fl (uint32_t (addr + l1)) l2.
Proof.
  intros H1 H2. unfold jshFlashRead.
  rewrite Z2Nat.inj_add by assumption.
  rewrite seq_app, map_app. f_equal.
  rewrite (Nat.add_comm 0 (Z.to_nat l1)), <- map_seq_add.
  apply map_ext. intros i.
  rewrite uint32_t_add_l. do 2 f_equal. lia.
Qed.

Lemma chunk_rest_split (fl : flash) (addr offset l : Z) :
  0 <= l <= STORAGEFILE_CHUNKSIZE - offset ->
  chunk_rest fl addr offset
  = jshFlashRead fl (uint32_t (addr + offset)) l
    ++ chunk_rest fl addr (offset + l).
Proof.
  intros H. unfold chunk_rest.
  replace (STORAGEFILE_CHUNKSIZE - offset)
    with (l + (STORAGEFILE_CHUNKSIZE - (offset + l))) by lia.
  rewrite jshFlashRead_split by lia.
  rewrite uint32_t_add_l. do 3 f_equal; lia.
Qed.

Lemma chunk_rest_end (fl : flash) (addr offset : Z) :
  STORAGEFILE_CHUNKSIZE <= offset -> chunk_rest fl addr offset = [].
Proof.
  intros H. unfold chunk_rest, jshFlashRead.
  replace (Z.to_nat (STORAGEFILE_CHUNKSIZE - offset)) with O by lia.
  reflexivity.
Qed.

Lemma chunks_from_next (fl : flash) (name : bytes) (chunk : Z) :
  1 <= chunk < 255 ->
  chunks_from fl name (Z.to_nat (255 - chunk))
  = let addr := uint32_t (fst (jsfFindFile fl (chunk_name name (chunk + 1)))) in
    if addr =? 0 then []
    else chunk_rest fl addr 0
         ++ chunks_from fl name (Z.to_nat (255 - (chunk + 1))).
Proof.
  intros H.
  replace (Z.to_nat (255 - chunk)) with (S (Z.to_nat (255 - (chunk + 1))))
    by lia.
  cbn [chunks_from].
  replace (256 - Z.of_nat (S (Z.to_nat (255 - (chunk + 1))))) with (chunk + 1)
    by lia.
  reflexivity.
Qed.

(** ** The scan of the buffer *)

Lemma extend_extend (r : option bytes) (a b : bytes) :
  extend (extend r a) b = extend r (a ++ b).
Proof.
  destruct a as [|x a]; [reflexivity|].
  destruct b as [|y b]; simpl.
  - now rewrite app_nil_r.
  - now rewrite <- app_assoc.
Qed.

Lemma append_result_extend (r : option bytes) (buf : bytes) (l : Z) :
  0 < l -> buf <> [] ->
  append_result r buf l = extend r (firstn (Z.to_nat l) buf).
Proof.
  intros Hl Hb. unfold append_result, extend.
  destruct buf as [|b buf]; [congruence|].
  replace (Z.to_nat l) with (S (Z.to_nat (l - 1))) by lia. reflexivity.
Qed.

Lemma expected_read_nil (isReadLine : bool) (len : Z) :
  expected_read isReadLine len [] = [].
Proof.
  unfold expected_read. destruct isReadLine; simpl; trivial.
  apply firstn_nil.
Qed.

Lemma expected_read_end (isReadLine : bool) (len : Z) (s : bytes) :
  data_prefix s = [] -> expected_read isReadLine len s = [].
Proof.
  intros H. unfold expected_read. rewrite H.
  destruct isReadLine; simpl; trivial. apply firstn_nil.
Qed.

(** What the scan of the buffer finds, against the expected result for
    the stream [buf ++ rest]. *)
Lemma read_scan_spec (isReadLine : bool) (buf rest : bytes) (i len : Z) :
  (isReadLine = false -> Z.of_nat (length buf) <= len) ->
  match read_scan isReadLine buf i with
  | None =>
      expected_read isReadLine len (buf ++ rest)
      = buf ++ expected_read isReadLine (len - Z.of_nat (length buf)) rest
  | Some (j, newline) =>
      0 <= j - i <= Z.of_nat (length buf)
      /\ expected_read isReadLine len (buf ++ rest)
         = firstn (Z.to_nat (j - i)) buf
      /\ (if newline then isReadLine = true
          else data_prefix (skipn (Z.to_nat (j - i)) (buf ++ rest)) = [])
  end.
Proof.
  revert i len. induction buf as [|b buf IH]; intros i len Hlen.
  - simpl. now rewrite Z.sub_0_r.
  - cbn [read_scan].
    destruct (Z.eqb_spec b 255) as [Hb|Hb].
    + subst b. rewrite Z.sub_diag. simpl.
      split; [lia|]. split; [|reflexivity].
      now apply expected_read_end.
    + destruct (isReadLine && (b =? ch_newline)) eqn:Hnl.
      * apply andb_prop in Hnl. destruct Hnl as [-> Hn].
        apply Z.eqb_eq in Hn. subst b.
        replace (i + 1 - i) with 1 by lia. simpl.
        split; [lia|]. split; reflexivity.
      * assert (Hdp : forall x, data_prefix (b :: x) = b :: data_prefix x).
        { intros x. unfold data_prefix. simpl. unfold is_data.
          destruct (Z.eqb_spec b 255); [contradiction|reflexivity]. }
        assert (Hstep : forall x,
                   expected_read isReadLine len (b :: x)
                   = b :: expected_read isReadLine (len - 1) x).
        { intros x. unfold expected_read. rewrite Hdp.
          destruct isReadLine.
          - simpl in Hnl. simpl. now rewrite Hnl.
          - specialize (Hlen eq_refl). simpl length in Hlen.
            replace (Z.to_nat len) with (S (Z.to_nat (len - 1))) by lia.
            reflexivity. }
        specialize (IH (i + 1) (len - 1)).
        destruct (read_scan isReadLine buf (i + 1)) as [[j newline]|].
        -- destruct IH as (Hj & He & Hs).
           { intros H. specialize (Hlen H). simpl length in Hlen. lia. }
           simpl length. split; [lia|].
           replace (Z.to_nat (j - i)) with (S (Z.to_nat (j - (i + 1)))) by lia.
           simpl app. rewrite Hstep, He. split; [reflexivity|].
           exact Hs.
        -- simpl app. rewrite Hstep, IH.
           ++ simpl length. do 3 f_equal. lia.
           ++ intros H. specialize (Hlen H). simpl length in Hlen. lia.
Qed.

(** ** The step to the next page *)

Lemma stream_from_set_offset (fl : flash) (f : StorageFile) (offset : Z) :
  uint32_t (sf_addr f) <> 0 ->
  stream_from fl (set_offset f offset)
  = chunk_rest fl (uint32_t (sf_addr f)) offset
    ++ chunks_from fl (sf_name f) (Z.to_nat (255 - sf_chunk f)).
Proof.
  intros H. unfold stream_from. simpl.
  destruct (Z.eqb_spec (uint32_t (sf_addr f)) 0); [contradiction|reflexivity].
Qed.

Lemma next_page_spec (fl : flash) (f : StorageFile) (offset : Z) :
  let name := sf_name f in
  let chunk := sf_chunk f in
  let addr := uint32_t (sf_addr f) in
  addr <> 0 ->
  0 <= offset <= STORAGEFILE_CHUNKSIZE ->
  1 <= chunk <= 255 ->
  0 < STORAGEFILE_CHUNKSIZE ->
  let s := chunk_rest fl addr offset
           ++ chunks_from fl name (Z.to_nat (255 - chunk)) in
  match next_page fl f (chunk_name name chunk)
                  (name_end (jsfNameFromVar name)) offset chunk addr
                  (STORAGEFILE_CHUNKSIZE - offset) with
  | (f1, fname1, offset1, chunk1, addr1, remaining1, stop) =>
      sf_name f1 = name /\ sf_mode f1 = sf_mode f
      /\ if stop
         then s = [] /\ stream_from fl f1 = [] /\ handle_ok f1
         else fname1 = chunk_name name chunk1
              /\ sf_chunk f1 = chunk1
              /\ uint32_t (sf_addr f1) = addr1
              /\ addr1 <> 0
              /\ 0 <= offset1 < STORAGEFILE_CHUNKSIZE
              /\ 1 <= chunk1 <= 255
              /\ remaining1 = STORAGEFILE_CHUNKSIZE - offset1
              /\ s = chunk_rest fl addr1 offset1
                     ++ chunks_from fl name (Z.to_nat (255 - chunk1))
              /\ (255 - chunk1) * STORAGEFILE_CHUNKSIZE
                 + (STORAGEFILE_CHUNKSIZE - offset1)
                 <= (255 - chunk) * STORAGEFILE_CHUNKSIZE
                    + (STORAGEFILE_CHUNKSIZE - offset)
  end.
Proof.
  intros name chunk addr Haddr Hoff Hchunk Hcs s. unfold next_page.
  destruct (Z.leb_spec (STORAGEFILE_CHUNKSIZE - offset) 0) as [Hrem|Hrem].
  - assert (offset = STORAGEFILE_CHUNKSIZE) by lia. subst offset.
    assert (Hs : s = chunks_from fl name (Z.to_nat (255 - chunk))).
    { subst s. now rewrite chunk_rest_end by lia. }
    destruct (Z.eqb_spec chunk 255) as [Hc|Hc].
    + simpl. split; [reflexivity|]. split; [reflexivity|].
      split; [|split].
      * rewrite Hs, Hc. reflexivity.
      * reflexivity.
      * unfold handle_ok. simpl. fold chunk. lia.
    + assert (Hset : set_c (chunk_name name chunk)
                           (name_end (jsfNameFromVar name)) (chunk + 1)
                     = chunk_name name (chunk + 1))
        by (unfold chunk_name; apply set_c_twice).
      rewrite Hset.
      rewrite chunks_from_next in Hs by lia. cbv zeta in Hs.
      set (addr1 := uint32_t (fst (jsfFindFile fl (chunk_name name (chunk + 1)))))
        in *.
      split; [reflexivity|]. split; [reflexivity|].
      revert Hs. destruct (Z.eqb_spec addr1 0) as [Ha|Ha]; intros Hs.
      * cbn iota. split; [exact Hs|]. split.
        -- unfold stream_from. simpl. rewrite Ha. reflexivity.
        -- unfold handle_ok. simpl. lia.
      * cbn iota. simpl sf_chunk. simpl sf_addr.
        split; [reflexivity|]. split; [reflexivity|].
        split; [apply uint32_t_idem|]. split; [exact Ha|].
        split; [lia|]. split; [lia|]. split; [lia|]. split; [exact Hs|].
        lia.
  - split; [reflexivity|]. split; [reflexivity|].
    split; [reflexivity|]. split; [reflexivity|]. split; [reflexivity|].
    split; [exact Haddr|]. split; [lia|]. split; [lia|].
    split; [reflexivity|]. split; [reflexivity|]. lia.
Qed.

(** ** The read loop *)

Lemma buffer_length (len remaining : Z) :
  0 < len -> 0 < remaining ->
  let l := if len >? 32 then 32 else len in
  let l := if l >? remaining then remaining else l in
  1 <= l /\ l <= remaining /\ l <= len /\ l <= 32.
Proof.
  intros Hl Hr. cbv zeta. rewrite !Z.gtb_ltb.
  destruct (Z.ltb_spec 32 len);
    match goal with |- context [?a <? ?b] => destruct (Z.ltb_spec a b) end;
    lia.
Qed.

Lemma read_loop_spec (fl : flash) (fuel : nat) :
  forall (f : StorageFile) (isReadLine : bool) (len offset : Z)
         (result : option bytes),
    let name := sf_name f in
    let chunk := sf_chunk f in
    let addr := uint32_t (sf_addr f) in
    addr <> 0 ->
    0 <= offset <= STORAGEFILE_CHUNKSIZE ->
    1 <= chunk <= 255 ->
    0 < STORAGEFILE_CHUNKSIZE ->
    (if isReadLine then len = 32 else 0 <= len) ->
    (255 - chunk) * STORAGEFILE_CHUNKSIZE + (STORAGEFILE_CHUNKSIZE - offset)
      + 2 <= Z.of_nat fuel ->
    let s := chunk_rest fl addr offset
             ++ chunks_from fl name (Z.to_nat (255 - chunk)) in
    let e := expected_read isReadLine len s in
    exists f',
      read_loop fuel fl f (chunk_name name chunk)
                (name_end (jsfNameFromVar name)) isReadLine len offset chunk
                addr result
      = Some (f', extend result e)
      /\ sf_name f' = name /\ sf_mode f' = sf_mode f /\ handle_ok f'
      /\ stream_from fl f' = skipn (length e) s.
Proof.
  induction fuel as [|fuel IH];
    intros f isReadLine len offset result name chunk addr Haddr Hoff Hchunk
           Hcs Hlen Hfuel s e.
  - assert (0 <= (255 - chunk) * STORAGEFILE_CHUNKSIZE)
      by (apply Z.mul_nonneg_nonneg; lia).
    lia.
  - cbn [read_loop].
    destruct (Z.eqb_spec len 0) as [Hl0|Hl0].
    + assert (He : e = []).
      { subst e. unfold expected_read. destruct isReadLine; [lia|].
        rewrite Hl0. reflexivity. }
      rewrite He. exists (set_offset f offset).
      split; [reflexivity|]. split; [reflexivity|]. split; [reflexivity|].
      split; [unfold handle_ok; simpl; fold chunk; lia|].
      rewrite stream_from_set_offset by assumption. reflexivity.
    + pose proof (next_page_spec fl f offset Haddr Hoff Hchunk Hcs) as Hnp.
      cbv zeta in Hnp. fold name chunk addr s in Hnp.
      destruct (next_page fl f (chunk_name name chunk)
                          (name_end (jsfNameFromVar name)) offset chunk addr
                          (STORAGEFILE_CHUNKSIZE - offset))
        as [[[[[[f1 fname1] offset1] chunk1] addr1] remaining1] stop].
      destruct Hnp as (Hn1 & Hm1 & Hnp).
      destruct stop.
      * destruct Hnp as (Hs & Hsf & Hok).
        assert (He : e = []).
        { subst e. rewrite Hs. apply expected_read_nil. }
        rewrite He. exists f1. simpl extend.
        split; [reflexivity|]. split; [assumption|]. split; [assumption|].
        split; [assumption|]. rewrite Hsf, Hs. reflexivity.
      * destruct Hnp as (Hf1 & Hc1 & Ha1 & Hnz1 & Hoff1 & Hch1 & Hrem1 & Hs
                         & Hmeasure).
        assert (Hpos : 0 < len) by (destruct isReadLine; lia).
        pose proof (buffer_length len remaining1 Hpos ltac:(lia)) as Hbl.
        cbv zeta in Hbl.
        set (l0 := if (if len >? 32 then 32 else len) >? remaining1
                   then remaining1 else if len >? 32 then 32 else len) in *.
        destruct Hbl as (Hl1 & Hl2 & Hl3 & Hl4).
        set (buf := jshFlashRead fl (uint32_t (addr1 + offset1)) l0).
        assert (Hbuflen : Z.of_nat (length buf) = l0).
        { subst buf. rewrite jshFlashRead_length. lia. }
        set (later := chunks_from fl name (Z.to_nat (255 - chunk1))) in *.
        set (rest := chunk_rest fl addr1 (offset1 + l0) ++ later).
        assert (Hsplit : s = buf ++ rest).
        { rewrite Hs. subst rest buf.
          rewrite (chunk_rest_split fl addr1 offset1 l0) by lia.
          now rewrite <- app_assoc. }
        assert (Hbufne : buf <> []).
        { intros Hb. rewrite Hb in Hbuflen. simpl in Hbuflen. lia. }
        pose proof (read_scan_spec isReadLine buf rest 0 len
                      ltac:(intros _; lia)) as Hscan.
        fold e in Hscan. rewrite <- Hsplit in Hscan. fold e in Hscan.
        destruct (read_scan isReadLine buf 0) as [[j newline]|].
        -- rewrite Z.sub_0_r in Hscan. destruct Hscan as (Hj & He & Hnl).
           destruct (Z.eqb_spec j 0) as [Hj0|Hj0].
           ++ exists (set_offset f1 offset1).
              assert (He0 : e = []) by (rewrite He, Hj0; reflexivity).
              rewrite He0. split; [reflexivity|]. split; [assumption|].
              split; [assumption|].
              split; [unfold handle_ok; simpl; rewrite Hc1; lia|].
              rewrite stream_from_set_offset by (rewrite Ha1; assumption).
              rewrite Ha1, Hn1, Hc1. fold later. now rewrite <- Hs.
           ++ set (isReadLine' := if newline then false else isReadLine).
              set (len' := if isReadLine' then 32 else j - j).
              rewrite append_result_extend by (assumption || lia).
              rewrite <- He.
              destruct (IH f1 isReadLine' len' (offset1 + j) (extend result e))
                as (f' & Hrun & Hn' & Hm' & Hok' & Hsf').
              { rewrite Ha1. assumption. }
              { lia. }
              { rewrite Hc1. assumption. }
              { assumption. }
              { subst len'. destruct isReadLine'; lia. }
              { rewrite Hc1. lia. }
              rewrite Hn1, Hc1, Ha1 in Hrun, Hsf'. fold later in Hrun, Hsf'.
              rewrite <- Hf1 in Hrun.
              assert (Hskip : chunk_rest fl addr1 (offset1 + j) ++ later
                              = skipn (Z.to_nat j) s).
              { rewrite Hs.
                rewrite (chunk_rest_split fl addr1 offset1 j) by lia.
                rewrite <- app_assoc.
                rewrite skipn_app, jshFlashRead_length.
                rewrite skipn_all2 by (rewrite jshFlashRead_length; lia).
                now rewrite Nat.sub_diag. }
              rewrite Hskip in Hrun, Hsf'.
              assert (Hend : expected_read isReadLine' len'
                               (skipn (Z.to_nat j) s) = []).
              { subst isReadLine' len'. destruct newline.
                - unfold expected_read. rewrite Z.sub_diag. reflexivity.
                - now apply expected_read_end. }
              rewrite Hend in Hrun, Hsf'.
              exists f'. rewrite Hn1 in Hn'. rewrite Hm1 in Hm'.
              split; [exact Hrun|]. split; [assumption|].
              split; [assumption|]. split; [assumption|].
              rewrite Hsf'. simpl skipn. rewrite He.
              rewrite length_firstn. f_equal. lia.
        -- destruct (Z.eqb_spec l0 0) as [Hz|_]; [lia|].
           rewrite append_result_extend by (assumption || lia).
           replace (firstn (Z.to_nat l0) buf) with buf
             by (symmetry; apply firstn_all2; lia).
           set (len' := if isReadLine then 32 else len - l0).
           destruct (IH f1 isReadLine len' (offset1 + l0) (extend result buf))
             as (f' & Hrun & Hn' & Hm' & Hok' & Hsf').
           { rewrite Ha1. assumption. }
           { lia. }
           { rewrite Hc1. assumption. }
           { assumption. }
           { subst len'. destruct isReadLine; lia. }
           { rewrite Hc1. lia. }
           rewrite Hn1, Hc1, Ha1 in Hrun, Hsf'. fold later in Hrun, Hsf'.
           fold rest in Hrun, Hsf'. rewrite <- Hf1 in Hrun.
           assert (Hexp : expected_read isReadLine len' rest
                          = expected_read isReadLine
                              (len - Z.of_nat (length buf)) rest).
           { subst len'. rewrite Hbuflen. unfold expected_read.
             destruct isReadLine; reflexivity. }
           rewrite Hexp in Hrun, Hsf'.
           rewrite extend_extend, <- Hscan in Hrun.
           exists f'. rewrite Hn1 in Hn'. rewrite Hm1 in Hm'.
           split; [exact Hrun|]. split; [assumption|].
           split; [assumption|]. split; [assumption|].
           rewrite Hsf', Hscan, Hsplit.
           rewrite length_app, skipn_app.
           rewrite (@skipn_all2 _ _ buf) by lia.
           replace (length buf + _ - length buf)%nat
             with (length (expected_read isReadLine
                             (len - Z.of_nat (length buf)) rest)) by lia.
           reflexivity.
Qed.

(** ** read and readLine against the stream *)

Lemma extend_none (e : bytes) : extend None e = result_of e.
Proof. destruct e; reflexivity. Qed.

Lemma stream_from_at (fl : flash) (f : StorageFile) :
  uint32_t (sf_addr f) <> 0 ->
  stream_from fl f
  = chunk_rest fl (uint32_t (sf_addr f)) (sf_offset f)
    ++ chunks_from fl (sf_name f) (Z.to_nat (255 - sf_chunk f)).
Proof.
  intros H. unfold stream_from.
  destruct (Z.eqb_spec (uint32_t (sf_addr f)) 0); [contradiction|reflexivity].
Qed.

Lemma read_internal_spec (fuel : nat) (fl : flash) (f : StorageFile)
    (len : Z) :
  char (sf_mode f) = ch_r ->
  handle_ok f ->
  0 < STORAGEFILE_CHUNKSIZE ->
  (Z.to_nat (255 * STORAGEFILE_CHUNKSIZE) + 2 <= fuel)%nat ->
  let e := expected_read (len <? 0) len (stream_from fl f) in
  exists f',
    jswrap_storagefile_read_internal fuel fl f len
    = Some (f', result_of e, None)
    /\ sf_name f' = sf_name f /\ sf_mode f' = sf_mode f /\ handle_ok f'
    /\ stream_from fl f' = skipn (length e) (stream_from fl f).
Proof.
  intros Hmode Hok Hcs Hfuel e. unfold jswrap_storagefile_read_internal.
  rewrite Hmode. simpl (negb (ch_r =? ch_r)). cbv iota.
  destruct (Z.eqb_spec (uint32_t (sf_addr f)) 0) as [Ha|Ha].
  - assert (Hs : stream_from fl f = []).
    { unfold stream_from. now rewrite Ha. }
    assert (He : e = []) by (subst e; rewrite Hs; apply expected_read_nil).
    rewrite He, Hs. exists f. repeat split; try assumption; apply Hok.
  - destruct Hok as [Hoff Hchunk].
    destruct (read_loop_spec fl fuel f (len <? 0)
                (if len <? 0 then 32 else len) (sf_offset f) None)
      as (f' & Hrun & Hrest); try assumption.
    + destruct (Z.ltb_spec len 0); lia.
    + assert (0 <= (255 - sf_chunk f) * STORAGEFILE_CHUNKSIZE
              <= 254 * STORAGEFILE_CHUNKSIZE).
      { split; [apply Z.mul_nonneg_nonneg; lia|].
        apply Z.mul_le_mono_nonneg_r; lia. }
      lia.
    + fold (chunk_name (sf_name f) (sf_chunk f)).
      rewrite <- stream_from_at in Hrun, Hrest by assumption.
      assert (He : expected_read (len <? 0) (if len <? 0 then 32 else len)
                     (stream_from fl f) = e).
      { subst e. unfold expected_read. destruct (len <? 0); reflexivity. }
      rewrite He in Hrun, Hrest. rewrite extend_none in Hrun.
      rewrite Hrun. exists f'. split; [reflexivity|]. exact Hrest.
Qed.

Lemma data_prefix_cases (s : bytes) :
  s = data_prefix s \/ exists rest, s = data_prefix s ++ 255 :: rest.
Proof.
  unfold data_prefix. induction s as [|b s IH]; [now left|].
  simpl. unfold is_data at 1 3.
  destruct (Z.eqb_spec b 255) as [->|Hb]; simpl.
  - right. now exists s.
  - destruct IH as [IH|[rest IH]].
    + left. now f_equal.
    + right. exists rest. now f_equal.
Qed.

(** C2: in mode 'r', read(handle, len) returns the first [len] bytes of
    the data ahead of the handle, where the data end at the first [0xFF]
    byte, at the end of chunk 255 or at the first chunk that does not
    exist: never more than [len] bytes, and fewer only when the bytes
    ahead are used up or the next one is [0xFF].  The result is nothing
    exactly when these are zero bytes, and the handle is moved past the
    bytes that were returned. *)
Theorem read_returns_data_ahead (fuel : nat) (fl : flash) (f : StorageFile)
    (len : Z) :
  char (sf_mode f) = ch_r ->
  handle_ok f ->
  0 < STORAGEFILE_CHUNKSIZE ->
  (Z.to_nat (255 * STORAGEFILE_CHUNKSIZE) + 2 <= fuel)%nat ->
  let s := stream_from fl f in
  let e := firstn (Z.to_nat len) (data_prefix s) in
  Z.of_nat (length e) <= Z.max 0 len
  /\ (Z.of_nat (length e) < len ->
      s = e \/ exists rest, s = e ++ 255 :: rest)
  /\ (result_of e = None <-> e = [])
  /\ exists f',
       jswrap_storagefile_read fuel fl f len = Some (f', result_of e, None)
       /\ sf_name f' = sf_name f /\ sf_mode f' = sf_mode f /\ handle_ok f'
       /\ stream_from fl f' = skipn (length e) s.
Proof.
  intros Hmode Hok Hcs Hfuel s e.
  split; [|split; [|split]].
  - subst e. rewrite length_firstn. lia.
  - subst e. rewrite length_firstn. intros H.
    rewrite firstn_all2 by lia. apply data_prefix_cases.
  - destruct e; simpl; split; congruence.
  - unfold jswrap_storagefile_read.
    destruct (read_internal_spec fuel fl f (if len <? 0 then 0 else len)
                Hmode Hok Hcs Hfuel) as (f' & Hrun & Hrest).
    assert (He : expected_read ((if len <? 0 then 0 else len) <? 0)
                   (if len <? 0 then 0 else len) (stream_from fl f) = e).
    { subst e s. unfold expected_read.
      destruct (Z.ltb_spec len 0) as [Hneg|Hpos].
      - simpl. now replace (Z.to_nat len) with O by lia.
      - destruct (Z.ltb_spec len 0); [lia|reflexivity]. }
    rewrite He in Hrun, Hrest. exists f'. split; assumption.
Qed.

(** C7: in mode 'r', readLine returns the data ahead of the handle up to
    and including the first newline, or all of them when there is none; it
    is what read returns with a budget that covers the data, cut after the
    first newline.  After "one\ntwo\nthree" was written to a fresh
    stream, four calls return "one\n", "two\n", "three" and nothing. *)
Theorem readLine_returns_first_line (fuel : nat) (fl : flash)
    (f : StorageFile) :
  char (sf_mode f) = ch_r ->
  handle_ok f ->
  0 < STORAGEFILE_CHUNKSIZE ->
  (Z.to_nat (255 * STORAGEFILE_CHUNKSIZE) + 2 <= fuel)%nat ->
  let s := stream_from fl f in
  let line := upto_newline (data_prefix s) in
  (exists f',
     jswrap_storagefile_readLine fuel fl f = Some (f', result_of line, None)
     /\ sf_name f' = sf_name f /\ sf_mode f' = sf_mode f /\ handle_ok f'
     /\ stream_from fl f' = skipn (length line) s)
  /\ (forall (len : Z) (f1 : StorageFile) (r1 : option bytes)
             (exn : option JsException),
        Z.of_nat (length (data_prefix s)) <= len ->
        jswrap_storagefile_read fuel fl f len = Some (f1, r1, exn) ->
        line = upto_newline (bytes_of_result r1))
  /\ Scenario.lines_read
     = Some [Some (bytes_of_string "one" ++ [ch_newline]);
             Some (bytes_of_string "two" ++ [ch_newline]);
             Some (bytes_of_string "three");
             None].
Proof.
  intros Hmode Hok Hcs Hfuel s line.
  split; [|split].
  - unfold jswrap_storagefile_readLine.
    destruct (read_internal_spec fuel fl f (-1) Hmode Hok Hcs Hfuel)
      as (f' & Hrun & Hrest).
    exists f'. split; assumption.
  - intros len f1 r1 exn Hlen. unfold jswrap_storagefile_read.
    destruct (read_internal_spec fuel fl f (if len <? 0 then 0 else len)
                Hmode Hok Hcs Hfuel) as (f' & Hrun & _).
    rewrite Hrun. intros [= _ <- _].
    destruct (Z.ltb_spec len 0) as [Hneg|Hpos]; [lia|].
    unfold expected_read.
    destruct (Z.ltb_spec len 0); [lia|].
    fold s. rewrite firstn_all2 by lia.
    subst line. destruct (data_prefix s); reflexivity.
  - vm_compute. reflexivity.
Qed.

End Reading.

Section Appending.

Context {E : Externals}.

(** ** Data followed by erased bytes *)

Lemma data_prefix_app (body rest : bytes) :
  data_prefix (body ++ rest)
  = if forallb is_data body then body ++ data_prefix rest
    else data_prefix body.
Proof.
  unfold data_prefix. induction body as [|b body IH]; simpl; [reflexivity|].
  destruct (is_data b); simpl; [|reflexivity].
  rewrite IH. now destruct (forallb is_data body).
Qed.

Lemma data_prefix_short (body : bytes) :
  forallb is_data body = false ->
  (length (data_prefix body) < length body)%nat.
Proof.
  unfold data_prefix. induction body as [|b body IH]; simpl; [discriminate|].
  destruct (is_data b); simpl; intros H; [|lia].
  specialize (IH H). lia.
Qed.

Lemma all_data_nth (body : bytes) (i : nat) :
  forallb is_data body = true -> (i < length body)%nat ->
  nth i body 255 <> 255.
Proof.
  intros H Hi. rewrite forallb_forall in H.
  specialize (H _ (nth_In body 255 Hi)). unfold is_data in H.
  destruct (Z.eqb_spec (nth i body 255) 255); [discriminate|assumption].
Qed.

Lemma erased_nth (s : bytes) (i : nat) :
  forallb (Z.eqb 255) s = true -> nth i s 255 = 255.
Proof.
  intros H. destruct (Nat.lt_ge_cases i (length s)) as [Hi|Hi].
  - rewrite forallb_forall in H. specialize (H _ (nth_In s 255 Hi)).
    apply Z.eqb_eq in H. congruence.
  - now apply nth_overflow.
Qed.

Lemma erased_tail_cons (b : Z) (s : bytes) :
  is_data b = true -> erased_tail (b :: s) = erased_tail s.
Proof. intros H. unfold erased_tail, data_prefix. simpl. now rewrite H. Qed.

Lemma erased_tail_nth (s : bytes) (i : nat) :
  erased_tail s = true -> (length (data_prefix s) <= i)%nat ->
  nth i s 255 = 255.
Proof.
  revert i. induction s as [|b s IH]; intros i Ht Hi.
  - now destruct i.
  - destruct (is_data b) eqn:Hb.
    + rewrite erased_tail_cons in Ht by assumption.
      unfold data_prefix in Hi. simpl in Hi. rewrite Hb in Hi. simpl in Hi.
      destruct i as [|i]; [lia|]. simpl. apply IH; [assumption|].
      unfold data_prefix. lia.
    + unfold erased_tail, data_prefix in Ht. simpl in Ht. rewrite Hb in Ht.
      simpl in Ht. now apply erased_nth.
Qed.

Lemma erased_tail_app (body rest : bytes) :
  forallb is_data body = true ->
  erased_tail (body ++ rest) = erased_tail rest.
Proof.
  induction body as [|b body IH]; simpl; [reflexivity|].
  intros H. apply andb_prop in H. destruct H as [Hb H].
  rewrite erased_tail_cons by assumption. now apply IH.
Qed.

Lemma erased_no_data (s : bytes) :
  forallb (Z.eqb 255) s = true -> filter is_data s = [].
Proof.
  induction s as [|c s IH]; [reflexivity|].
  cbn [forallb filter]. intros H. apply andb_prop in H. destruct H as [Hc H].
  apply Z.eqb_eq in Hc. subst c. now apply IH.
Qed.

Lemma count_data_prefix (s : bytes) :
  erased_tail s = true ->
  count_data s = Z.of_nat (length (data_prefix s)).
Proof.
  unfold count_data. intros H. f_equal. f_equal.
  induction s as [|b s IH]; [reflexivity|].
  destruct (is_data b) eqn:Hb.
  - rewrite erased_tail_cons in H by assumption.
    unfold data_prefix in *. cbn [filter take_while]. rewrite Hb.
    f_equal. now apply IH.
  - unfold erased_tail, data_prefix in H. cbn [take_while] in H.
    rewrite Hb in H. cbn [length skipn] in H.
    rewrite (erased_no_data _ H).
    unfold data_prefix. cbn [take_while]. now rewrite Hb.
Qed.

(** A chunk whose last byte is data is full of data; a chunk whose last
    byte is erased holds the end of the data. *)
Lemma chunk_full_or_last (body rest : bytes) :
  body <> [] ->
  erased_tail (body ++ rest) = true ->
  if nth (length body - 1) body 255 =? 255
  then data_prefix (body ++ rest) = data_prefix body
       /\ (length (data_prefix body) < length body)%nat
  else data_prefix (body ++ rest) = body ++ data_prefix rest
       /\ erased_tail rest = true.
Proof.
  intros Hne Ht.
  assert (Hlen : (length body - 1 < length body)%nat).
  { destruct body; [congruence|]. simpl. lia. }
  pose proof (data_prefix_app body rest) as Happ.
  destruct (forallb is_data body) eqn:Hall.
  - pose proof (all_data_nth body _ Hall Hlen) as Hlast.
    destruct (Z.eqb_spec (nth (length body - 1) body 255) 255);
      [contradiction|].
    split; [assumption|]. now rewrite erased_tail_app in Ht.
  - pose proof (data_prefix_short body Hall) as Hshort.
    assert (Hlast : nth (length body - 1) body 255 = 255).
    { rewrite <- (app_nth1 body rest 255 Hlen).
      apply erased_tail_nth; [assumption|]. rewrite Happ. lia. }
    rewrite Hlast. simpl. split; assumption.
Qed.

(** ** The scan for the end of the data in a chunk *)

Lemma find_end_spec (buf rest : bytes) (i : Z) :
  match find_end buf i with
  | Some j =>
      0 <= j - i < Z.of_nat (length buf)
      /\ Z.of_nat (length (data_prefix (buf ++ rest))) = j - i
  | None => data_prefix (buf ++ rest) = buf ++ data_prefix rest
  end.
Proof.
  revert i. induction buf as [|b buf IH]; intros i; simpl; [reflexivity|].
  unfold data_prefix, is_data. simpl.
  destruct (Z.eqb_spec b 255) as [Hb|Hb]; simpl.
  - split; lia.
  - specialize (IH (i + 1)). destruct (find_end buf (i + 1)) as [j|].
    + destruct IH as [Hj Hl]. unfold data_prefix, is_data in Hl. split; lia.
    + unfold data_prefix, is_data in IH. now rewrite IH.
Qed.

Lemma append_scan_spec (fl : flash) (addr : Z) (fuel : nat) :
  forall offset : Z,
    0 <= offset <= STORAGEFILE_CHUNKSIZE ->
    STORAGEFILE_CHUNKSIZE - offset < Z.of_nat fuel ->
    append_scan fuel fl addr offset
    = Some (offset
            + Z.of_nat (length (data_prefix (chunk_rest fl addr offset)))).
Proof.
  induction fuel as [|fuel IH]; intros offset Hoff Hfuel; [lia|].
  cbn [append_scan].
  destruct (Z.leb_spec (STORAGEFILE_CHUNKSIZE - offset) 0) as [Hl|Hl].
  - rewrite chunk_rest_end by lia. simpl. now rewrite Z.add_0_r.
  - set (l := if STORAGEFILE_CHUNKSIZE - offset >? 64 then 64
              else STORAGEFILE_CHUNKSIZE - offset).
    assert (Hl' : 1 <= l <= STORAGEFILE_CHUNKSIZE - offset).
    { subst l. rewrite Z.gtb_ltb.
      destruct (Z.ltb_spec 64 (STORAGEFILE_CHUNKSIZE - offset)); lia. }
    rewrite (chunk_rest_split fl addr offset l) by lia.
    set (buf := jshFlashRead fl (uint32_t (addr + offset)) l).
    pose proof (find_end_spec buf (chunk_rest fl addr (offset + l)) 0) as Hf.
    destruct (find_end buf 0) as [j|].
    + destruct Hf as [_ Hf]. rewrite Hf. f_equal. lia.
    + rewrite Hf, length_app. rewrite IH by lia.
      subst buf. rewrite jshFlashRead_length. f_equal. lia.
Qed.

(** ** The walk over the chunks *)

Lemma nth_jshFlashRead (fl : flash) (addr len : Z) (i : nat) (d : Z) :
  (i < Z.to_nat len)%nat ->
  nth i (jshFlashRead fl addr len) d
  = flash_byte fl (uint32_t (addr + Z.of_nat i)).
Proof.
  intros Hi. unfold jshFlashRead.
  rewrite (nth_indep _ d (flash_byte fl (uint32_t (addr + Z.of_nat 0))))
    by now rewrite length_map, length_seq.
  rewrite (map_nth (fun i => flash_byte fl (uint32_t (addr + Z.of_nat i)))).
  now rewrite seq_nth.
Qed.

Lemma read_lastCh_body (fl : flash) (addr : Z) (header : JsfFileHeader) :
  jsfGetFileSize header = STORAGEFILE_CHUNKSIZE ->
  0 < STORAGEFILE_CHUNKSIZE ->
  read_lastCh fl addr header
  = nth (length (chunk_rest fl addr 0) - 1) (chunk_rest fl addr 0) 255.
Proof.
  intros Hsize Hcs. unfold read_lastCh, chunk_rest.
  rewrite jshFlashRead_length, Hsize.
  rewrite !nth_jshFlashRead by lia.
  rewrite !uint32_t_add_l. do 2 f_equal. lia.
Qed.

Lemma chunk_rest_length (fl : flash) (addr offset : Z) :
  length (chunk_rest fl addr offset)
  = Z.to_nat (STORAGEFILE_CHUNKSIZE - offset).
Proof. unfold chunk_rest. apply jshFlashRead_length. Qed.

Lemma append_walk_spec (fl : flash) (name : bytes) (k : nat) :
  forall (fuel : nat) (lastCh : Z),
    (1 <= k <= 255)%nat ->
    (k <= fuel)%nat ->
    0 < STORAGEFILE_CHUNKSIZE ->
    chunks_sized fl name k = true ->
    erased_tail (chunks_from fl name k) = true ->
    let p := Z.of_nat (length (data_prefix (chunks_from fl name k))) in
    p < Z.of_nat k * STORAGEFILE_CHUNKSIZE ->
    let c := 256 - Z.of_nat k in
    let addr := uint32_t (fst (jsfFindFile fl (chunk_name name c))) in
    (addr <> 0 ->
     lastCh = read_lastCh fl addr (snd (jsfFindFile fl (chunk_name name c)))) ->
    let c' := c + p / STORAGEFILE_CHUNKSIZE in
    let addr' := uint32_t (fst (jsfFindFile fl (chunk_name name c'))) in
    append_walk fuel fl (chunk_name name c) (name_end (jsfNameFromVar name)) c
                addr lastCh
    = Some (c', addr')
    /\ Z.of_nat
         (length (data_prefix
                    (if addr' =? 0 then [] else chunk_rest fl addr' 0)))
       = p mod STORAGEFILE_CHUNKSIZE.
Proof.
  induction k as [|k IH]; intros fuel lastCh Hk Hfuel Hcs Hsized Htail p Hp c
                                 addr Hlast c' addr'; [lia|].
  destruct fuel as [|fuel]; [lia|].
  cbn [append_walk].
  cbn [chunks_sized] in Hsized. cbn [chunks_from] in Htail, p.
  fold c in Hsized, Htail, p.
  destruct (jsfFindFile fl (chunk_name name c)) as [found header] eqn:Hfind.
  cbn [fst snd] in *. fold addr in Hsized, Htail, p.
  destruct (Z.eqb_spec addr 0) as [Ha|Ha].
  - (* chunk [c] does not exist *)
    assert (Hp0 : p = 0) by reflexivity.
    assert (Hc' : c' = c).
    { subst c'. rewrite Hp0, Z.div_0_l by lia. lia. }
    assert (Ha' : addr' = addr).
    { subst addr'. rewrite Hc', Hfind. reflexivity. }
    rewrite Hc', Ha', Ha, Hp0. simpl. split; reflexivity.
  - apply andb_prop in Hsized. destruct Hsized as [Hsize Hsized].
    apply Z.eqb_eq in Hsize.
    specialize (Hlast Ha).
    rewrite (read_lastCh_body fl addr header Hsize Hcs) in Hlast.
    set (body := chunk_rest fl addr 0) in *.
    set (rest := chunks_from fl name k) in *.
    assert (Hblen : Z.of_nat (length body) = STORAGEFILE_CHUNKSIZE).
    { subst body. rewrite chunk_rest_length. lia. }
    assert (Hbne : body <> []).
    { intros Hb. rewrite Hb in Hblen. simpl in Hblen. lia. }
    pose proof (chunk_full_or_last body rest Hbne Htail) as Hfull.
    rewrite <- Hlast in Hfull.
    destruct (Z.eqb_spec lastCh 255) as [Hff|Hff].
    + (* the data end in chunk [c] *)
      destruct Hfull as [Hdp Hshort].
      assert (Hsmall : 0 <= p < STORAGEFILE_CHUNKSIZE).
      { subst p. rewrite Hdp. lia. }
      assert (Hc' : c' = c).
      { subst c'. rewrite Z.div_small by assumption. lia. }
      assert (Ha' : addr' = addr).
      { subst addr'. rewrite Hc', Hfind. reflexivity. }
      rewrite Hc', Ha'. simpl. split; [reflexivity|].
      destruct (Z.eqb_spec addr 0); [contradiction|].
      rewrite Z.mod_small by assumption. fold body. subst p.
      now rewrite Hdp.
    + (* chunk [c] is full *)
      destruct Hfull as [Hdp Htail'].
      set (p' := Z.of_nat (length (data_prefix rest))).
      assert (Hpp : p = 1 * STORAGEFILE_CHUNKSIZE + p').
      { subst p p'. rewrite Hdp, length_app. lia. }
      destruct (Z.ltb_spec c 255) as [Hc|Hc].
      * simpl.
        assert (Hset : set_c (chunk_name name c)
                             (name_end (jsfNameFromVar name)) (c + 1)
                       = chunk_name name (c + 1))
          by (unfold chunk_name; apply set_c_twice).
        rewrite Hset.
        assert (Hnext : c + 1 = 256 - Z.of_nat k) by lia.
        specialize (IH fuel
                       (if uint32_t (fst (jsfFindFile fl (chunk_name name (c + 1))))
                           =? 0
                        then lastCh
                        else read_lastCh fl
                               (uint32_t
                                  (fst (jsfFindFile fl (chunk_name name (c + 1)))))
                               (snd (jsfFindFile fl (chunk_name name (c + 1)))))).
        cbv zeta in IH. rewrite <- Hnext in IH. fold rest p' in IH.
        destruct IH as [Hrun Hoff]; try assumption; try lia.
        { intros Hnz.
          destruct (Z.eqb_spec
                      (uint32_t (fst (jsfFindFile fl (chunk_name name (c + 1)))))
                      0); [contradiction|reflexivity]. }
        assert (Hdiv : p / STORAGEFILE_CHUNKSIZE
                       = 1 + p' / STORAGEFILE_CHUNKSIZE).
        { rewrite Hpp. apply Z.div_add_l. lia. }
        assert (Hmod : p mod STORAGEFILE_CHUNKSIZE
                       = p' mod STORAGEFILE_CHUNKSIZE).
        { rewrite Hpp, Z.add_comm. apply Z.mod_add. lia. }
        assert (Hc' : c' = c + 1 + p' / STORAGEFILE_CHUNKSIZE).
        { subst c'. rewrite Hdiv. lia. }
        subst addr'. rewrite Hc', Hmod.
        destruct (jsfFindFile fl (chunk_name name (c + 1)))
          as [found1 header1].
        cbn [fst snd] in Hrun. split; assumption.
      * (* chunk 255 cannot be full *)
        assert (k = 0%nat) by lia. subst k.
        assert (Hp'0 : p' = 0) by reflexivity.
        clear IH. lia.
Qed.

(** While the data do not fill all 255 chunks, the handle is at the
    quotient and the remainder of the number of data bytes. *)
Lemma open_append_below_full (fuel : nat) (fl : flash) (name : bytes)
    (modeVar : JsVar) :
  jsvIsStringEqual modeVar "r" = false ->
  jsvIsStringEqual modeVar "w" = false ->
  jsvIsStringEqual modeVar "a" = true ->
  0 < STORAGEFILE_CHUNKSIZE ->
  (255 <= fuel)%nat ->
  (Z.to_nat STORAGEFILE_CHUNKSIZE < fuel)%nat ->
  let n := take 8 name in
  let s := stream_bytes fl n in
  chunks_sized fl n 255 = true ->
  erased_tail s = true ->
  count_data s < 255 * STORAGEFILE_CHUNKSIZE ->
  let chunk := count_data s / STORAGEFILE_CHUNKSIZE + 1 in
  jswrap_storage_open fuel fl name modeVar
  = Some (fl,
          Some {| sf_name := n; sf_chunk := chunk;
                  sf_offset := count_data s mod STORAGEFILE_CHUNKSIZE;
                  sf_addr := uint32_t (fst (jsfFindFile fl (chunk_name n chunk)));
                  sf_mode := ch_a |},
          None).
Proof.
  intros Hr Hw Ha Hcs Hfuel1 Hfuel2 n s Hsized Htail Hcount chunk.
  unfold stream_bytes in s.
  assert (Hp : count_data s = Z.of_nat (length (data_prefix s)))
    by now apply count_data_prefix.
  subst chunk. rewrite Hp in *. clear Hp.
  unfold jswrap_storage_open, open_mode. rewrite Hr, Hw, Ha.
  change (jsvNewFromStringVar name 0 8) with n.
  fold (chunk_name n 1).
  pose proof (append_walk_spec fl n 255 fuel
                (if uint32_t (fst (jsfFindFile fl (chunk_name n 1))) =? 0
                 then 255
                 else read_lastCh fl
                        (uint32_t (fst (jsfFindFile fl (chunk_name n 1))))
                        (snd (jsfFindFile fl (chunk_name n 1))))
                ltac:(lia) Hfuel1 Hcs Hsized Htail Hcount) as Hwalk.
  cbv zeta in Hwalk. change (256 - Z.of_nat 255) with 1 in Hwalk.
  fold s in Hwalk.
  destruct Hwalk as [Hwalk Hoff].
  { intros Hnz.
    destruct (Z.eqb_spec (uint32_t (fst (jsfFindFile fl (chunk_name n 1)))) 0);
      [contradiction|reflexivity]. }
  destruct (jsfFindFile fl (chunk_name n 1)) as [found header].
  cbn [fst snd] in Hwalk.
  change ((ch_a =? ch_w) && negb (uint32_t found =? 0)) with false.
  change (ch_a =? ch_a) with true. cbv iota.
  unfold open_append. rewrite Hwalk.
  replace (1 + Z.of_nat (length (data_prefix s)) / STORAGEFILE_CHUNKSIZE)
    with (Z.of_nat (length (data_prefix s)) / STORAGEFILE_CHUNKSIZE + 1)
    in * by lia.
  set (c' := Z.of_nat (length (data_prefix s)) / STORAGEFILE_CHUNKSIZE + 1)
    in *.
  set (addr' := uint32_t (fst (jsfFindFile fl (chunk_name n c')))) in *.
  revert Hoff. destruct (Z.eqb_spec addr' 0) as [Hz|Hz]; intros Hoff.
  - change (Z.of_nat (length (data_prefix []))) with 0 in Hoff.
    rewrite <- Hoff. reflexivity.
  - rewrite append_scan_spec by lia.
    rewrite Hoff. reflexivity.
Qed.

(** ** All 255 chunks full *)

(** When the [k] last chunks are full of data, the walk from chunk
    [256 - k] ends on chunk 255, which exists and holds data only. *)
Lemma append_walk_full (fl : flash) (name : bytes) (k : nat) :
  forall (fuel : nat) (lastCh : Z),
    (1 <= k <= 255)%nat ->
    (k <= fuel)%nat ->
    0 < STORAGEFILE_CHUNKSIZE ->
    chunks_sized fl name k = true ->
    Z.of_nat k * STORAGEFILE_CHUNKSIZE
    <= Z.of_nat (length (data_prefix (chunks_from fl name k))) ->
    let c := 256 - Z.of_nat k in
    let addr := uint32_t (fst (jsfFindFile fl (chunk_name name c))) in
    (addr <> 0 ->
     lastCh = read_lastCh fl addr (snd (jsfFindFile fl (chunk_name name c)))) ->
    let addr' := uint32_t (fst (jsfFindFile fl (chunk_name name 255))) in
    append_walk fuel fl (chunk_name name c) (name_end (jsfNameFromVar name)) c
                addr lastCh
    = Some (255, addr')
    /\ addr' <> 0
    /\ data_prefix (chunk_rest fl addr' 0) = chunk_rest fl addr' 0.
Proof.
  induction k as [|k IH]; intros fuel lastCh Hk Hfuel Hcs Hsized Hp c addr
                                 Hlast addr'; [lia|].
  destruct fuel as [|fuel]; [lia|].
  cbn [append_walk].
  cbn [chunks_sized] in Hsized. cbn [chunks_from] in Hp.
  fold c in Hsized, Hp.
  destruct (jsfFindFile fl (chunk_name name c)) as [found header] eqn:Hfind.
  cbn [fst snd] in *. fold addr in Hsized, Hp.
  destruct (Z.eqb_spec addr 0) as [Ha|Ha].
  - (* chunk [c] does not exist *)
    cbn [data_prefix take_while length] in Hp. lia.
  - apply andb_prop in Hsized. destruct Hsized as [Hsize Hsized].
    apply Z.eqb_eq in Hsize.
    specialize (Hlast Ha).
    rewrite (read_lastCh_body fl addr header Hsize Hcs) in Hlast.
    set (body := chunk_rest fl addr 0) in *.
    set (rest := chunks_from fl name k) in *.
    assert (Hblen : Z.of_nat (length body) = STORAGEFILE_CHUNKSIZE).
    { subst body. rewrite chunk_rest_length. lia. }
    rewrite data_prefix_app in Hp.
    destruct (forallb is_data body) eqn:Hall.
    + (* chunk [c] is full *)
      rewrite length_app in Hp.
      assert (Hff : lastCh <> 255).
      { rewrite Hlast. apply all_data_nth; [assumption|lia]. }
      destruct (Z.eqb_spec lastCh 255) as [|_]; [contradiction|].
      destruct (Z.ltb_spec c 255) as [Hc|Hc].
      * simpl.
        assert (Hset : set_c (chunk_name name c)
                             (name_end (jsfNameFromVar name)) (c + 1)
                       = chunk_name name (c + 1))
          by (unfold chunk_name; apply set_c_twice).
        rewrite Hset.
        assert (Hnext : c + 1 = 256 - Z.of_nat k) by lia.
        specialize (IH fuel
                       (if uint32_t (fst (jsfFindFile fl (chunk_name name (c + 1))))
                           =? 0
                        then lastCh
                        else read_lastCh fl
                               (uint32_t
                                  (fst (jsfFindFile fl (chunk_name name (c + 1)))))
                               (snd (jsfFindFile fl (chunk_name name (c + 1)))))).
        cbv zeta in IH. rewrite <- Hnext in IH. fold rest in IH.
        destruct IH as [Hrun Hrest]; try assumption; try lia.
        { intros Hnz.
          destruct (Z.eqb_spec
                      (uint32_t (fst (jsfFindFile fl (chunk_name name (c + 1)))))
                      0); [contradiction|reflexivity]. }
        destruct (jsfFindFile fl (chunk_name name (c + 1)))
          as [found1 header1].
        cbn [fst snd] in Hrun. split; assumption.
      * (* chunk 255 is the last one *)
        assert (Hc255 : c = 255) by lia.
        assert (Ha' : addr' = addr).
        { subst addr'. rewrite <- Hc255, Hfind. reflexivity. }
        rewrite Ha', Hc255. simpl. split; [reflexivity|].
        split; [assumption|]. fold body.
        pose proof (data_prefix_app body []) as Hb.
        rewrite Hall, !app_nil_r in Hb. exact Hb.
    + (* the data end inside chunk [c] *)
      pose proof (data_prefix_short body Hall). nia.
Qed.

(** With all 255 chunks full the handle is at the end of chunk 255. *)
Lemma open_append_at_full (fuel : nat) (fl : flash) (name : bytes)
    (modeVar : JsVar) :
  jsvIsStringEqual modeVar "r" = false ->
  jsvIsStringEqual modeVar "w" = false ->
  jsvIsStringEqual modeVar "a" = true ->
  0 < STORAGEFILE_CHUNKSIZE ->
  (255 <= fuel)%nat ->
  (Z.to_nat STORAGEFILE_CHUNKSIZE < fuel)%nat ->
  let n := take 8 name in
  let s := stream_bytes fl n in
  chunks_sized fl n 255 = true ->
  erased_tail s = true ->
  255 * STORAGEFILE_CHUNKSIZE <= count_data s ->
  jswrap_storage_open fuel fl name modeVar
  = Some (fl,
          Some {| sf_name := n; sf_chunk := 255;
                  sf_offset := STORAGEFILE_CHUNKSIZE;
                  sf_addr := uint32_t (fst (jsfFindFile fl (chunk_name n 255)));
                  sf_mode := ch_a |},
          None).
Proof.
  intros Hr Hw Ha Hcs Hfuel1 Hfuel2 n s Hsized Htail Hcount.
  unfold stream_bytes in s.
  rewrite (count_data_prefix s Htail) in Hcount.
  unfold jswrap_storage_open, open_mode. rewrite Hr, Hw, Ha.
  change (jsvNewFromStringVar name 0 8) with n.
  fold (chunk_name n 1).
  pose proof (append_walk_full fl n 255 fuel
                (if uint32_t (fst (jsfFindFile fl (chunk_name n 1))) =? 0
                 then 255
                 else read_lastCh fl
                        (uint32_t (fst (jsfFindFile fl (chunk_name n 1))))
                        (snd (jsfFindFile fl (chunk_name n 1))))
                ltac:(lia) Hfuel1 Hcs Hsized Hcount) as Hwalk.
  cbv zeta in Hwalk. change (256 - Z.of_nat 255) with 1 in Hwalk.
  destruct Hwalk as (Hwalk & Hnz & Hfull).
  { intros Hnz.
    destruct (Z.eqb_spec (uint32_t (fst (jsfFindFile fl (chunk_name n 1)))) 0);
      [contradiction|reflexivity]. }
  destruct (jsfFindFile fl (chunk_name n 1)) as [found header].
  cbn [fst snd] in Hwalk.
  change ((ch_a =? ch_w) && negb (uint32_t found =? 0)) with false.
  change (ch_a =? ch_a) with true. cbv iota.
  unfold open_append. rewrite Hwalk.
  set (addr' := uint32_t (fst (jsfFindFile fl (chunk_name n 255)))) in *.
  destruct (Z.eqb_spec addr' 0) as [Hz|Hz]; [contradiction|].
  rewrite append_scan_spec by lia.
  rewrite Hfull, chunk_rest_length.
  replace (0 + Z.of_nat (Z.to_nat (STORAGEFILE_CHUNKSIZE - 0)))
    with STORAGEFILE_CHUNKSIZE by lia.
  reflexivity.
Qed.

(** C1 (as the code has it): when the stream holds data followed only by
    erased bytes, in chunks of [STORAGEFILE_CHUNKSIZE] bytes, opening it in
    mode 'a' returns a handle placed as follows.  While the data do not fill
    all 255 chunks, its chunk is the number of data bytes divided by the
    chunk size, plus one, and its offset is the remainder; [addr] is the
    address of that chunk, or 0 when it does not exist yet.  When all 255
    chunks are full, its chunk is 255 and its offset is the chunk size. *)
Theorem open_append_position (fuel : nat) (fl : flash) (name : bytes)
    (modeVar : JsVar) :
  jsvIsStringEqual modeVar "r" = false ->
  jsvIsStringEqual modeVar "w" = false ->
  jsvIsStringEqual modeVar "a" = true ->
  0 < STORAGEFILE_CHUNKSIZE ->
  (255 <= fuel)%nat ->
  (Z.to_nat STORAGEFILE_CHUNKSIZE < fuel)%nat ->
  let n := take 8 name in
  let s := stream_bytes fl n in
  chunks_sized fl n 255 = true ->
  erased_tail s = true ->
  (count_data s < 255 * STORAGEFILE_CHUNKSIZE ->
   let chunk := count_data s / STORAGEFILE_CHUNKSIZE + 1 in
   jswrap_storage_open fuel fl name modeVar
   = Some (fl,
           Some {| sf_name := n; sf_chunk := chunk;
                   sf_offset := count_data s mod STORAGEFILE_CHUNKSIZE;
                   sf_addr :=
                     uint32_t (fst (jsfFindFile fl (chunk_name n chunk)));
                   sf_mode := ch_a |},
           None))
  /\ (255 * STORAGEFILE_CHUNKSIZE <= count_data s ->
      jswrap_storage_open fuel fl name modeVar
      = Some (fl,
              Some {| sf_name := n; sf_chunk := 255;
                      sf_offset := STORAGEFILE_CHUNKSIZE;
                      sf_addr :=
                        uint32_t (fst (jsfFindFile fl (chunk_name n 255)));
                      sf_mode := ch_a |},
              None)).
Proof.
  intros Hr Hw Ha Hcs Hfuel1 Hfuel2 n s Hsized Htail. split.
  - intros Hcount. now apply open_append_below_full.
  - intros Hcount. now apply open_append_at_full.
Qed.

End Appending.


(** * Further properties of the wrappers *)

Section ChunkNames.

Lemma jsfNameFromVar_length (name : bytes) :
  length (jsfNameFromVar name) = 8%nat.
Proof.
  unfold jsfNameFromVar. rewrite length_firstn, length_app, repeat_length.
  unfold sizeof_JsfFileName. lia.
Qed.

Lemma strip_zeros_le (fname : JsfFileName) (k : nat) :
  (strip_zeros fname k <= k)%nat.
Proof.
  induction k as [|k IH]; simpl; [lia|].
  destruct (nth k fname 0 =? 0); lia.
Qed.

Lemma name_end_lt (name : bytes) :
  (name_end (jsfNameFromVar name) < length (jsfNameFromVar name))%nat.
Proof.
  rewrite jsfNameFromVar_length. unfold name_end.
  pose proof (strip_zeros_le (jsfNameFromVar name) (sizeof_JsfFileName - 1)).
  unfold sizeof_JsfFileName in *. simpl in *. lia.
Qed.

Lemma nth_set_c (fname : JsfFileName) (i : nat) (c d : Z) :
  (i < length fname)%nat -> nth i (set_c fname i c) d = char c.
Proof.
  revert i; induction fname as [|h t IH]; intros [|i] H; simpl in *;
    try lia; trivial.
  apply IH. lia.
Qed.

Lemma char_small (c : Z) : 0 <= c <= 255 -> char c = c.
Proof. intros H. unfold char. apply Z.mod_small. lia. Qed.

(** The chunk byte sits at [name_end]. *)
Lemma chunk_name_byte (name : bytes) (c : Z) :
  nth (name_end (jsfNameFromVar name)) (chunk_name name c) 0 = char c.
Proof. unfold chunk_name. apply nth_set_c, name_end_lt. Qed.

Lemma bare_name_byte (name : bytes) :
  (length name <= 7)%nat ->
  nth (name_end (jsfNameFromVar name)) (jsfNameFromVar name) 0 = 0.
Proof.
  intros Hlen. unfold name_end. apply strip_zeros_zero.
  unfold jsfNameFromVar.
  do 8 (destruct name as [|? name]; [reflexivity|]).
  simpl in Hlen. lia.
Qed.

(** X2: the chunks 1 to 255 of a stream have pairwise different file
    names, and for a stream name of at most seven bytes none of them is the
    bare name of the stream. *)
Theorem chunk_names_are_distinct (name : bytes) (c1 c2 : Z) :
  1 <= c1 <= 255 -> 1 <= c2 <= 255 ->
  (chunk_name name c1 = chunk_name name c2 -> c1 = c2)
  /\ ((length name <= 7)%nat -> chunk_name name c1 <> jsfNameFromVar name).
Proof.
  intros H1 H2. split.
  - intros Heq.
    pose proof (chunk_name_byte name c1) as B1.
    pose proof (chunk_name_byte name c2) as B2.
    rewrite Heq, B2 in B1. rewrite !char_small in B1 by lia. congruence.
  - intros Hlen Heq.
    pose proof (chunk_name_byte name c1) as B1.
    rewrite Heq, (bare_name_byte name Hlen), char_small in B1 by lia. lia.
Qed.

(** X1: for a stream name of at most seven bytes that does not end in a
    zero byte, the journal file of chunk [c] is the file whose name is the
    stream name followed by the byte [c]; a plain file of that name is the
    same record. *)
Theorem chunk_name_appends_chunk_byte (name : bytes) (c : Z) :
  (length name <= 7)%nat ->
  last name 1 <> 0 ->
  chunk_name name c = jsfNameFromVar (name ++ [char c]).
Proof.
  intros Hlen Hlast.
  unfold chunk_name, name_end, jsfNameFromVar.
  do 8 (destruct name as [|? name];
        [cbn in Hlast |- *;
         try match goal with
             | |- context [?b =? 0] =>
                 destruct (Z.eqb_spec b 0) as [Hz|_]; [contradiction|]
             end;
         reflexivity|]).
  simpl in Hlen. lia.
Qed.

End ChunkNames.

Section MoreOpen.

Context {E : Externals}.

Lemma append_walk_total (fl : flash) (n : bytes) (fuel : nat) :
  forall chunk lastCh : Z,
    1 <= chunk <= 255 ->
    255 - chunk < Z.of_nat fuel ->
    exists c',
      append_walk fuel fl (chunk_name n chunk) (name_end (jsfNameFromVar n))
                  chunk (uint32_t (fst (jsfFindFile fl (chunk_name n chunk))))
                  lastCh
      = Some (c', uint32_t (fst (jsfFindFile fl (chunk_name n c'))))
      /\ chunk <= c' <= 255.
Proof.
  induction fuel as [|fuel IH]; intros chunk lastCh Hc Hfuel; [lia|].
  cbn [append_walk].
  destruct (negb (uint32_t (fst (jsfFindFile fl (chunk_name n chunk))) =? 0)
            && negb (lastCh =? 255) && (chunk <? 255)) eqn:Hgo.
  - apply andb_prop in Hgo. destruct Hgo as [_ Hlt]. apply Z.ltb_lt in Hlt.
    assert (Hset : set_c (chunk_name n chunk) (name_end (jsfNameFromVar n))
                         (chunk + 1)
                   = chunk_name n (chunk + 1))
      by (unfold chunk_name; apply set_c_twice).
    rewrite Hset.
    specialize (IH (chunk + 1)).
    destruct (jsfFindFile fl (chunk_name n (chunk + 1))) as [found header].
    cbn [fst] in IH.
    destruct (IH (if uint32_t found =? 0 then lastCh
                  else read_lastCh fl (uint32_t found) header))
      as (c' & Hrun & Hc'); try lia.
    exists c'. split; [exact Hrun|lia].
  - exists chunk. split; [reflexivity|lia].
Qed.

Lemma data_prefix_length (s : bytes) :
  (length (data_prefix s) <= length s)%nat.
Proof.
  unfold data_prefix. induction s as [|b s IH]; simpl; [lia|].
  destruct (is_data b); simpl; lia.
Qed.

(** X3: whatever the flash holds, opening in mode 'a' returns (with fuel
    for 255 chunks and one chunk scan) without error and without changing
    the flash.  The handle is within the chunk range; its [addr] is that of
    its chunk; when the chunk is missing the offset is 0, and otherwise the
    offset is the number of bytes before the first [0xFF] of the chunk, so
    that the byte at the handle's position is erased unless the chunk is
    full. *)
Theorem open_append_is_total (fuel : nat) (fl : flash) (name : bytes)
    (modeVar : JsVar) :
  jsvIsStringEqual modeVar "r" = false ->
  jsvIsStringEqual modeVar "w" = false ->
  jsvIsStringEqual modeVar "a" = true ->
  0 < STORAGEFILE_CHUNKSIZE ->
  (255 <= fuel)%nat ->
  (Z.to_nat STORAGEFILE_CHUNKSIZE < fuel)%nat ->
  exists f,
    jswrap_storage_open fuel fl name modeVar = Some (fl, Some f, None)
    /\ sf_name f = take 8 name /\ sf_mode f = ch_a /\ handle_ok f
    /\ sf_addr f
       = uint32_t (fst (jsfFindFile fl (chunk_name (take 8 name) (sf_chunk f))))
    /\ (sf_addr f = 0 -> sf_offset f = 0)
    /\ (sf_addr f <> 0 ->
        Z.of_nat (length (data_prefix (chunk_rest fl (sf_addr f) 0)))
        = sf_offset f
        /\ (sf_offset f < STORAGEFILE_CHUNKSIZE ->
            flash_byte fl (uint32_t (sf_addr f + sf_offset f)) = 255)).
Proof.
  intros Hr Hw Ha Hcs Hfuel1 Hfuel2.
  set (n := take 8 name).
  unfold jswrap_storage_open, open_mode. rewrite Hr, Hw, Ha.
  change (jsvNewFromStringVar name 0 8) with n.
  fold (chunk_name n 1).
  destruct (append_walk_total fl n fuel 1
              (if uint32_t (fst (jsfFindFile fl (chunk_name n 1))) =? 0
               then 255
               else read_lastCh fl
                      (uint32_t (fst (jsfFindFile fl (chunk_name n 1))))
                      (snd (jsfFindFile fl (chunk_name n 1)))))
    as (c' & Hwalk & Hc'); try lia.
  destruct (jsfFindFile fl (chunk_name n 1)) as [found header].
  cbn [fst snd] in Hwalk.
  change ((ch_a =? ch_w) && negb (uint32_t found =? 0)) with false.
  change (ch_a =? ch_a) with true. cbv iota.
  unfold open_append. rewrite Hwalk.
  set (a' := uint32_t (fst (jsfFindFile fl (chunk_name n c')))).
  destruct (Z.eqb_spec a' 0) as [Hz|Hz].
  - eexists. split; [reflexivity|]. cbn.
    split; [reflexivity|]. split; [reflexivity|].
    split; [unfold handle_ok; cbn; lia|].
    split; [reflexivity|]. split; [reflexivity|]. intros H. contradiction.
  - rewrite append_scan_spec by lia.
    set (body := chunk_rest fl a' 0).
    assert (Hlen : length body = Z.to_nat STORAGEFILE_CHUNKSIZE).
    { subst body. rewrite chunk_rest_length. f_equal. lia. }
    pose proof (data_prefix_length body) as Hdp.
    eexists. split; [reflexivity|]. cbn.
    split; [reflexivity|]. split; [reflexivity|].
    split; [unfold handle_ok; cbn; lia|].
    split; [reflexivity|]. split; [intros H; contradiction|].
    intros _. fold body. split; [reflexivity|]. intros Hshort.
    destruct (data_prefix_cases body) as [Hall|[rest Hrest]].
    + rewrite <- Hall in Hshort. lia.
    + assert (Hnth : nth (length (data_prefix body)) body 0 = 255).
      { rewrite Hrest at 2. rewrite app_nth2, Nat.sub_diag by lia.
        reflexivity. }
      unfold body in Hnth at 2. unfold chunk_rest in Hnth.
      rewrite nth_jshFlashRead in Hnth by (fold body; lia).
      rewrite uint32_t_add_l in Hnth. rewrite <- Hnth.
      do 2 f_equal. lia.
Qed.

End MoreOpen.

Section MoreErase.

Context {E : Externals}.

Lemma erase_loop_spec (name : bytes) (k : nat) :
  forall (fuel : nat) (fl : flash) (fname : JsfFileName) (first : Z),
    (k < fuel)%nat ->
    chunks_erased k fl name first = true ->
    snd (jsfEraseFile (erase_chunks k fl name first)
                      (chunk_name name (first + Z.of_nat k))) = false ->
    (forall c, set_c fname (name_end (jsfNameFromVar name)) c
               = chunk_name name c) ->
    erase_loop fuel fl fname (name_end (jsfNameFromVar name)) first
    = Some (fst (jsfEraseFile (erase_chunks k fl name first)
                              (chunk_name name (first + Z.of_nat k)))).
Proof.
  induction k as [|k IH]; intros fuel fl fname first Hfuel Hall Hstop Hset;
    (destruct fuel as [|fuel]; [lia|]);
    rewrite erase_loop_step, Hset.
  - cbn [erase_chunks] in Hstop |- *.
    replace (first + Z.of_nat 0) with first in * by lia.
    rewrite Hstop. reflexivity.
  - cbn [chunks_erased] in Hall. apply andb_prop in Hall.
    destruct Hall as [Hok Hall]. rewrite Hok.
    cbn [erase_chunks] in Hstop |- *.
    replace (first + Z.of_nat (S k)) with (first + 1 + Z.of_nat k) in * by lia.
    apply IH; try assumption; [lia|].
    intros c. unfold chunk_name. apply set_c_twice.
Qed.

(** X13: erase asks the journal store to erase the chunks 1, 2, ... in
    order and stops at the first call that finds no file: when the first
    [k] calls succeed and the next one fails, the flash is the one these
    [k + 1] calls leave, chunks after the gap are not touched, and the
    handle is reset. *)
Theorem erase_stops_at_first_absent_chunk (fuel k : nat) (fl : flash)
    (f : StorageFile) :
  (k < fuel)%nat ->
  chunks_erased k fl (sf_name f) 1 = true ->
  snd (jsfEraseFile (erase_chunks k fl (sf_name f) 1)
                    (chunk_name (sf_name f) (1 + Z.of_nat k))) = false ->
  jswrap_storagefile_erase fuel fl f
  = Some (fst (jsfEraseFile (erase_chunks k fl (sf_name f) 1)
                            (chunk_name (sf_name f) (1 + Z.of_nat k))),
          {| sf_name := sf_name f; sf_chunk := 1; sf_offset := 0;
             sf_addr := 0; sf_mode := 0 |}).
Proof.
  intros Hfuel Hall Hstop. unfold jswrap_storagefile_erase.
  rewrite (erase_loop_spec (sf_name f) k fuel fl _ 1 Hfuel Hall Hstop);
    reflexivity.
Qed.

(** X4: when opening in mode 'w' returns, it raised no error and the
    handle is at chunk 1, offset 0 with no chunk allocated ([addr = 0]),
    never at the address of an existing chunk; the flash is unchanged when
    chunk 1 did not exist and is what erase leaves otherwise. *)
Theorem open_write_starts_empty (fuel : nat) (fl fl' : flash) (name : bytes)
    (modeVar : JsVar) (r : option StorageFile) (exn : option JsException) :
  jsvIsStringEqual modeVar "r" = false ->
  jsvIsStringEqual modeVar "w" = true ->
  jswrap_storage_open fuel fl name modeVar = Some (fl', r, exn) ->
  let first_chunk := chunk_name (take 8 name) 1 in
  exn = None
  /\ r = Some {| sf_name := take 8 name; sf_chunk := 1; sf_offset := 0;
                 sf_addr := 0; sf_mode := ch_w |}
  /\ (uint32_t (fst (jsfFindFile fl first_chunk)) = 0 -> fl' = fl)
  /\ (uint32_t (fst (jsfFindFile fl first_chunk)) <> 0 ->
      exists f',
        jswrap_storagefile_erase fuel fl (new_StorageFile (take 8 name))
        = Some (fl', f')).
Proof.
  intros Hr Hw. unfold jswrap_storage_open, open_mode. rewrite Hr, Hw.
  change (jsvNewFromStringVar name 0 8) with (take 8 name).
  fold (chunk_name (take 8 name) 1).
  destruct (jsfFindFile fl (chunk_name (take 8 name) 1)) as [found header].
  cbn [fst].
  change (ch_w =? ch_w) with true. change (ch_w =? ch_a) with false.
  cbn [andb].
  destruct (Z.eqb_spec (uint32_t found) 0) as [Hz|Hz]; cbn [negb].
  - rewrite Hz. intros [= <- <- <-].
    split; [reflexivity|]. split; [reflexivity|].
    split; [reflexivity|]. intros H. contradiction.
  - destruct (jswrap_storagefile_erase fuel fl _) as [[fl1 f1]|] eqn:He;
      [|discriminate].
    pose proof (erase_resets_handle _ _ _ _ _ He) as Hf1. subst f1.
    intros [= <- <- <-]. split; [reflexivity|]. split; [reflexivity|].
    split; [intros H; contradiction|]. intros _. eexists. reflexivity.
Qed.

End MoreErase.

Section MoreReading.

Context {E : Externals}.

Lemma read_spec (fuel : nat) (fl : flash) (f : StorageFile) (len : Z) :
  char (sf_mode f) = ch_r ->
  handle_ok f ->
  0 < STORAGEFILE_CHUNKSIZE ->
  (Z.to_nat (255 * STORAGEFILE_CHUNKSIZE) + 2 <= fuel)%nat ->
  let e := firstn (Z.to_nat len) (data_prefix (stream_from fl f)) in
  exists f',
    jswrap_storagefile_read fuel fl f len = Some (f', result_of e, None)
    /\ sf_name f' = sf_name f /\ sf_mode f' = sf_mode f /\ handle_ok f'
    /\ stream_from fl f' = skipn (length e) (stream_from fl f).
Proof.
  intros Hmode Hok Hcs Hfuel e. unfold jswrap_storagefile_read.
  destruct (read_internal_spec fuel fl f (if len <? 0 then 0 else len)
              Hmode Hok Hcs Hfuel) as (f' & Hrun & Hrest).
  assert (He : expected_read ((if len <? 0 then 0 else len) <? 0)
                 (if len <? 0 then 0 else len) (stream_from fl f) = e).
  { subst e. unfold expected_read.
    destruct (Z.ltb_spec len 0) as [Hneg|Hpos].
    - simpl. now replace (Z.to_nat len) with O by lia.
    - destruct (Z.ltb_spec len 0); [lia|reflexivity]. }
  rewrite He in Hrun, Hrest. exists f'. split; assumption.
Qed.

Lemma readLine_spec (fuel : nat) (fl : flash) (f : StorageFile) :
  char (sf_mode f) = ch_r ->
  handle_ok f ->
  0 < STORAGEFILE_CHUNKSIZE ->
  (Z.to_nat (255 * STORAGEFILE_CHUNKSIZE) + 2 <= fuel)%nat ->
  let e := upto_newline (data_prefix (stream_from fl f)) in
  exists f',
    jswrap_storagefile_readLine fuel fl f = Some (f', result_of e, None)
    /\ sf_name f' = sf_name f /\ sf_mode f' = sf_mode f /\ handle_ok f'
    /\ stream_from fl f' = skipn (length e) (stream_from fl f).
Proof.
  intros Hmode Hok Hcs Hfuel e. unfold jswrap_storagefile_readLine.
  exact (read_internal_spec fuel fl f (-1) Hmode Hok Hcs Hfuel).
Qed.

Lemma bytes_of_result_of (e : bytes) : bytes_of_result (result_of e) = e.
Proof. now destruct e. Qed.

(** ** Lists of data bytes *)

Lemma data_prefix_skipn (s : bytes) (k : nat) :
  (k <= length (data_prefix s))%nat ->
  data_prefix (skipn k s) = skipn k (data_prefix s).
Proof.
  unfold data_prefix. revert k. induction s as [|b s IH]; intros k Hk.
  - now destruct k.
  - destruct k as [|k]; [reflexivity|].
    simpl in *. destruct (is_data b); simpl in *; [|lia].
    apply IH. lia.
Qed.



Lemma data_prefix_all_data (s : bytes) :
  Forall (fun b => b <> 255) (data_prefix s).
Proof.
  unfold data_prefix. induction s as [|b s IH]; simpl; [constructor|].
  unfold is_data at 1. destruct (Z.eqb_spec b 255); simpl; constructor;
    assumption.
Qed.

Lemma Forall_firstn_bytes (P : Z -> Prop) (n : nat) (l : bytes) :
  Forall P l -> Forall P (firstn n l).
Proof.
  revert n; induction l as [|b l IH]; intros n H.
  - now rewrite firstn_nil.
  - destruct n; simpl; [constructor|].
    inversion H; subst. constructor; auto.
Qed.

Lemma upto_newline_all (P : Z -> Prop) (l : bytes) :
  Forall P l -> Forall P (upto_newline l).
Proof.
  induction l as [|b l IH]; intros H; simpl; [constructor|].
  inversion H; subst.
  destruct (b =? ch_newline); constructor; auto.
Qed.

(** A line has no newline before its last byte, and a line that does not
    end in a newline is all there was. *)
Lemma upto_newline_shape (l : bytes) :
  ~ In ch_newline (removelast (upto_newline l))
  /\ (last (upto_newline l) 0 <> ch_newline -> upto_newline l = l).
Proof.
  induction l as [|b l [IH1 IH2]]; [simpl; tauto|].
  cbn [upto_newline].
  destruct (Z.eqb_spec b ch_newline) as [Hb|Hb].
  - simpl. split; [tauto|]. intros H. congruence.
  - destruct (upto_newline l) as [|c u] eqn:Hu.
    + simpl. split; [tauto|]. intros _. f_equal.
      destruct l as [|d l]; [reflexivity|].
      cbn [upto_newline] in Hu. destruct (d =? ch_newline); discriminate.
    + split.
      * cbn [removelast]. intros [H|H]; [congruence|]. now apply IH1.
      * intros H. f_equal. apply IH2. exact H.
Qed.

(** ** Properties of read and readLine *)

(** X6: a read of zero or of a negative number of bytes is no error: it
    returns nothing and leaves the handle as it was. *)
Theorem read_nothing_for_no_length (fuel : nat) (fl : flash)
    (f : StorageFile) (len : Z) :
  char (sf_mode f) = ch_r ->
  (1 <= fuel)%nat ->
  len <= 0 ->
  jswrap_storagefile_read fuel fl f len = Some (f, None, None).
Proof.
  intros Hmode Hfuel Hlen.
  unfold jswrap_storagefile_read, jswrap_storagefile_read_internal.
  rewrite Hmode. simpl (negb (ch_r =? ch_r)). cbv iota.
  destruct (uint32_t (sf_addr f) =? 0); [reflexivity|].
  assert (Hl : (if (if len <? 0 then 0 else len) <? 0 then 32
                else if len <? 0 then 0 else len) = 0).
  { destruct (Z.ltb_spec len 0); [reflexivity|].
    destruct (Z.ltb_spec len 0); lia. }
  rewrite Hl. destruct fuel as [|fuel]; [lia|].
  cbn [read_loop]. simpl (0 =? 0). cbv iota.
  now destruct f.
Qed.

(** X5: opening in mode 'r' and reading [len] bytes returns the first
    [len] data bytes of the whole stream (nothing for a stream that does
    not exist). *)
Theorem open_then_read (fuel : nat) (fl : flash) (name : bytes)
    (modeVar : JsVar) (len : Z) :
  jsvIsStringEqual modeVar "r" = true ->
  0 < STORAGEFILE_CHUNKSIZE ->
  (Z.to_nat (255 * STORAGEFILE_CHUNKSIZE) + 2 <= fuel)%nat ->
  exists f f',
    jswrap_storage_open fuel fl name modeVar = Some (fl, Some f, None)
    /\ jswrap_storagefile_read fuel fl f len
       = Some (f',
               result_of (firstn (Z.to_nat len)
                            (data_prefix (stream_bytes fl (take 8 name)))),
               None).
Proof.
  intros Hr Hcs Hfuel.
  set (n := take 8 name).
  set (a := uint32_t (fst (jsfFindFile fl (chunk_name n 1)))).
  set (f := {| sf_name := n; sf_chunk := 1; sf_offset := 0; sf_addr := a;
               sf_mode := ch_r |}).
  assert (Hopen : jswrap_storage_open fuel fl name modeVar
                  = Some (fl, Some f, None)).
  { unfold jswrap_storage_open, open_mode. rewrite Hr.
    change (jsvNewFromStringVar name 0 8) with n.
    fold (chunk_name n 1). subst f a.
    now destruct (jsfFindFile fl (chunk_name n 1)). }
  assert (Hs : stream_from fl f = stream_bytes fl n).
  { unfold stream_from, stream_bytes. subst f. cbn [sf_addr sf_offset sf_chunk sf_name].
    change (Z.to_nat (255 - 1)) with 254%nat.
    change 255%nat with (S 254). cbn [chunks_from].
    change (256 - Z.of_nat 255) with 1.
    subst a. rewrite uint32_t_idem. reflexivity. }
  destruct (read_spec fuel fl f len) as (f' & Hrun & _); try assumption.
  - reflexivity.
  - unfold handle_ok. simpl. lia.
  - exists f, f'. split; [exact Hopen|]. now rewrite <- Hs.
Qed.


(** X8: read and readLine never return a [0xFF] byte; a line returned
    by readLine has no newline before its last byte, and when it does not
    end in a newline it holds all the data that were left. *)
Theorem read_results_are_data (fuel : nat) (fl : flash) (f : StorageFile)
    (len : Z) :
  char (sf_mode f) = ch_r ->
  handle_ok f ->
  0 < STORAGEFILE_CHUNKSIZE ->
  (Z.to_nat (255 * STORAGEFILE_CHUNKSIZE) + 2 <= fuel)%nat ->
  exists f1 r1 f2 r2,
    jswrap_storagefile_read fuel fl f len = Some (f1, r1, None)
    /\ jswrap_storagefile_readLine fuel fl f = Some (f2, r2, None)
    /\ Forall (fun b => b <> 255) (bytes_of_result r1)
    /\ Forall (fun b => b <> 255) (bytes_of_result r2)
    /\ ~ In ch_newline (removelast (bytes_of_result r2))
    /\ (last (bytes_of_result r2) 0 <> ch_newline ->
        bytes_of_result r2 = data_prefix (stream_from fl f)).
Proof.
  intros Hmode Hok Hcs Hfuel.
  destruct (read_spec fuel fl f len Hmode Hok Hcs Hfuel) as (f1 & Hrun1 & _).
  destruct (readLine_spec fuel fl f Hmode Hok Hcs Hfuel) as (f2 & Hrun2 & _).
  eexists _, _, _, _. split; [exact Hrun1|]. split; [exact Hrun2|].
  rewrite !bytes_of_result_of.
  split; [apply Forall_firstn_bytes, data_prefix_all_data|].
  split; [apply upto_newline_all, data_prefix_all_data|].
  apply upto_newline_shape.
Qed.

(** X9: once a read of a positive number of bytes has returned nothing,
    every later read and readLine on the handle it left returns nothing
    too. *)
Theorem end_of_data_is_sticky (fuel : nat) (fl : flash) (f f' : StorageFile)
    (len : Z) (exn : option JsException) :
  char (sf_mode f) = ch_r ->
  handle_ok f ->
  0 < STORAGEFILE_CHUNKSIZE ->
  (Z.to_nat (255 * STORAGEFILE_CHUNKSIZE) + 2 <= fuel)%nat ->
  0 < len ->
  jswrap_storagefile_read fuel fl f len = Some (f', None, exn) ->
  forall len2 : Z,
    (exists f2, jswrap_storagefile_read fuel fl f' len2 = Some (f2, None, None))
    /\ (exists f2, jswrap_storagefile_readLine fuel fl f' = Some (f2, None, None)).
Proof.
  intros Hmode Hok Hcs Hfuel Hlen Hrun len2.
  destruct (read_spec fuel fl f len Hmode Hok Hcs Hfuel)
    as (f1 & Hrun1 & _ & Hm1 & Hok1 & Hs1).
  rewrite Hrun in Hrun1. injection Hrun1 as <- He _.
  assert (Hdp : data_prefix (stream_from fl f) = []).
  { destruct (data_prefix (stream_from fl f)) as [|b l]; [reflexivity|].
    replace (Z.to_nat len) with (S (Z.to_nat (len - 1))) in He by lia.
    discriminate. }
  rewrite Hdp in Hs1. rewrite firstn_nil in Hs1. simpl in Hs1.
  rewrite <- Hm1 in Hmode.
  destruct (read_spec fuel fl f' len2 Hmode Hok1 Hcs Hfuel) as (f2 & Hr2 & _).
  destruct (readLine_spec fuel fl f' Hmode Hok1 Hcs Hfuel) as (f3 & Hr3 & _).
  rewrite Hs1, Hdp in Hr2, Hr3. rewrite firstn_nil in Hr2.
  split; [exists f2; exact Hr2|exists f3; exact Hr3].
Qed.

End MoreReading.

Section Lines.

Context {E : Externals}.

Lemma upto_newline_prefix (l : bytes) :
  l = upto_newline l ++ skipn (length (upto_newline l)) l.
Proof.
  induction l as [|b l IH]; [reflexivity|].
  cbn [upto_newline]. destruct (b =? ch_newline); simpl; [reflexivity|].
  now f_equal.
Qed.

Lemma upto_newline_length (l : bytes) :
  (length (upto_newline l) <= length l)%nat.
Proof.
  induction l as [|b l IH]; simpl; [lia|].
  destruct (b =? ch_newline); simpl; lia.
Qed.

Lemma upto_newline_nil (l : bytes) : upto_newline l = [] -> l = [].
Proof.
  destruct l as [|b l]; [reflexivity|]. simpl.
  destruct (b =? ch_newline); discriminate.
Qed.

(** X10: [k] successive calls of readLine return consecutive pieces of
    the data ahead of the handle, in order and without loss; as soon as one
    of them returned nothing all the data have been returned. *)
Theorem lines_partition_the_data (k fuel : nat) (fl : flash) :
  forall f : StorageFile,
    char (sf_mode f) = ch_r ->
    handle_ok f ->
    0 < STORAGEFILE_CHUNKSIZE ->
    (Z.to_nat (255 * STORAGEFILE_CHUNKSIZE) + 2 <= fuel)%nat ->
    exists (rs : list (option bytes)) (rest : bytes),
      readLines k fuel fl f = Some rs
      /\ length rs = k
      /\ data_prefix (stream_from fl f)
         = concat (map bytes_of_result rs) ++ rest
      /\ (In None rs -> rest = []).
Proof.
  induction k as [|k IH]; intros f Hmode Hok Hcs Hfuel.
  - exists [], (data_prefix (stream_from fl f)).
    split; [reflexivity|]. split; [reflexivity|]. split; [reflexivity|].
    intros [].
  - cbn [readLines].
    destruct (readLine_spec fuel fl f Hmode Hok Hcs Hfuel)
      as (f1 & Hrun & _ & Hm1 & Hok1 & Hs1).
    rewrite Hrun. rewrite <- Hm1 in Hmode.
    destruct (IH f1 Hmode Hok1 Hcs Hfuel)
      as (rs & rest & Hrs & Hlen & Hcat & Hnone).
    rewrite Hrs.
    set (dp := data_prefix (stream_from fl f)) in *.
    set (e := upto_newline dp) in *.
    assert (Hdp1 : data_prefix (stream_from fl f1) = skipn (length e) dp).
    { rewrite Hs1. apply data_prefix_skipn. apply upto_newline_length. }
    exists (result_of e :: rs), rest.
    split; [reflexivity|]. split; [simpl; lia|].
    split.
    + cbn [map concat].
      rewrite bytes_of_result_of, <- app_assoc, <- Hcat, Hdp1.
      apply upto_newline_prefix.
    + intros [Hhead|Htail]; [|now apply Hnone].
      assert (He : e = []) by (destruct e; [reflexivity|discriminate]).
      apply upto_newline_nil in He.
      rewrite Hdp1, He in Hcat. simpl in Hcat.
      rewrite skipn_nil in Hcat. symmetry in Hcat.
      now apply app_eq_nil in Hcat.
Qed.

End Lines.

Section MoreWriting.

Context {E : Externals}.

(** X11: if the journal store only accepts data that fit the size that is
    reserved for a chunk, write keeps the handle within the chunk range
    (offset between 0 and the chunk size, chunk between 1 and 255) and
    never changes its name or mode, whether it succeeds or not. *)
Theorem write_keeps_handle_in_range (fl : flash) (f : StorageFile)
    (_data : JsVar) :
  handle_ok f ->
  STORAGEFILE_CHUNKSIZE < 2 ^ 31 ->
  (forall (fl0 fl1 : flash) (fname : JsfFileName) (d : bytes),
      jsfWriteFile fl0 fname (jsvNewFromString d) JSFF_NONE 0
                   STORAGEFILE_CHUNKSIZE = (fl1, true) ->
      Z.of_nat (length d) <= STORAGEFILE_CHUNKSIZE) ->
  let f' := snd (fst (jswrap_storagefile_write fl f _data)) in
  handle_ok f' /\ sf_name f' = sf_name f /\ sf_mode f' = sf_mode f.
Proof.
  intros [Hoff Hchunk] Hcs Hfits.
  assert (Hrem : size_t (STORAGEFILE_CHUNKSIZE - sf_offset f)
                 = STORAGEFILE_CHUNKSIZE - sf_offset f)
    by (apply size_t_small; lia).
  unfold jswrap_storagefile_write.
  destruct (negb (char (sf_mode f) =? ch_w) && negb (char (sf_mode f) =? ch_a));
    [cbn; unfold handle_ok; auto|].
  destruct (jsvAsString _data) as [data|]; [|cbn; unfold handle_ok; auto].
  destruct (Z.of_nat (length data) =? 0); [cbn; unfold handle_ok; auto|].
  destruct (uint32_t (sf_addr f) =? 0).
  - destruct (jsfWriteFile fl _ (jsvNewFromString data) JSFF_NONE 0
                           STORAGEFILE_CHUNKSIZE) as [fl1 [|]] eqn:Hw;
      [|cbn; unfold handle_ok; auto].
    apply Hfits in Hw. cbn. unfold handle_ok. cbn. repeat split; lia.
  - rewrite Hrem.
    destruct (Z.ltb_spec (Z.of_nat (length data))
                         (STORAGEFILE_CHUNKSIZE - sf_offset f)) as [Hlt|Hge].
    + cbn. unfold handle_ok. cbn. repeat split; lia.
    + destruct (Z.eqb_spec (sf_chunk f) 255) as [Hc|Hc];
        [cbn; unfold handle_ok; auto|].
      destruct (jsfWriteFile _ _ (jsvNewFromString _) JSFF_NONE 0
                             STORAGEFILE_CHUNKSIZE) as [fl2 [|]] eqn:Hw.
      * apply Hfits in Hw. cbn. unfold handle_ok. cbn. repeat split; lia.
      * cbn. unfold handle_ok. cbn. repeat split; lia.
Qed.

End MoreWriting.

Section RoundTrip.

Context {E : Externals}.

Lemma data_then_erased (d rest : bytes) (k : nat) :
  forallb is_data d = true ->
  data_prefix ((d ++ repeat 255 (S k)) ++ rest) = d.
Proof.
  intros H. rewrite <- app_assoc, data_prefix_app, H.
  cbn. apply app_nil_r.
Qed.

(** X12: on a fresh stream, two writes that fit the first chunk create
    the chunk with the first piece and program the second piece right after
    it; if the store keeps its side (the record is found at the same
    address and its body holds the two pieces followed by erased bytes),
    reading the stream back returns the two pieces in order, and opening it
    for append gives the position where the writer stopped. *)
Theorem write_then_read_round_trip (fuel : nat) (fl : flash) (name : bytes)
    (wVar rVar aVar v1 v2 : JsVar) (d1 d2 : bytes) (len : Z) :
  let first_chunk := chunk_name (take 8 name) 1 in
  let len1 := Z.of_nat (length d1) in
  let len2 := Z.of_nat (length d2) in
  let created :=
    jsfWriteFile fl first_chunk (jsvNewFromString d1) JSFF_NONE 0
                 STORAGEFILE_CHUNKSIZE in
  let fl1 := fst created in
  let addr := uint32_t (fst (jsfFindFile fl1 first_chunk)) in
  let fl2 := jswrap_flash_write fl1 d2 (uint32_t (addr + len1)) in
  jsvIsStringEqual wVar "r" = false ->
  jsvIsStringEqual wVar "w" = true ->
  jsvIsStringEqual rVar "r" = true ->
  jsvIsStringEqual aVar "r" = false ->
  jsvIsStringEqual aVar "w" = false ->
  jsvIsStringEqual aVar "a" = true ->
  jsvAsString v1 = Some d1 ->
  jsvAsString v2 = Some d2 ->
  d1 <> [] ->
  d2 <> [] ->
  forallb is_data (d1 ++ d2) = true ->
  len1 + len2 < STORAGEFILE_CHUNKSIZE ->
  STORAGEFILE_CHUNKSIZE < 2 ^ 31 ->
  (Z.to_nat (255 * STORAGEFILE_CHUNKSIZE) + 2 <= fuel)%nat ->
  uint32_t (fst (jsfFindFile fl first_chunk)) = 0 ->
  snd created = true ->
  addr <> 0 ->
  jsfFindFile fl2 first_chunk = jsfFindFile fl1 first_chunk ->
  jsfGetFileSize (snd (jsfFindFile fl1 first_chunk)) = STORAGEFILE_CHUNKSIZE ->
  chunk_rest fl2 addr 0
  = (d1 ++ d2)
    ++ repeat 255 (Z.to_nat (STORAGEFILE_CHUNKSIZE - (len1 + len2))) ->
  exists f0 f1 f2 fr f',
    jswrap_storage_open fuel fl name wVar = Some (fl, Some f0, None)
    /\ jswrap_storagefile_write fl f0 v1 = (fl1, f1, None)
    /\ jswrap_storagefile_write fl1 f1 v2 = (fl2, f2, None)
    /\ sf_chunk f2 = 1 /\ sf_offset f2 = len1 + len2
    /\ jswrap_storage_open fuel fl2 name rVar = Some (fl2, Some fr, None)
    /\ jswrap_storagefile_read fuel fl2 fr len
       = Some (f', result_of (firstn (Z.to_nat len) (d1 ++ d2)), None)
    /\ jswrap_storage_open fuel fl2 name aVar
       = Some (fl2, Some (set_mode f2 ch_a), None).
Proof.
  cbv zeta.
  set (n := take 8 name). set (first_chunk := chunk_name n 1).
  set (len1 := Z.of_nat (length d1)). set (len2 := Z.of_nat (length d2)).
  destruct (jsfWriteFile fl first_chunk (jsvNewFromString d1) JSFF_NONE 0
                         STORAGEFILE_CHUNKSIZE) as [fl1 ok] eqn:Hcreate.
  cbn [fst snd].
  remember (uint32_t (fst (jsfFindFile fl1 first_chunk))) as addr
    eqn:Haddr_def.
  remember (jswrap_flash_write fl1 d2 (uint32_t (addr + len1))) as fl2
    eqn:Hfl2_def.
  intros Hwr Hww Hrr Har Haw Haa Hd1 Hd2 Hne1 Hne2 Hdata Hroom Hcs31 Hfuel
         Habsent Hok Haddr Hstill Hsize Hbody.
  subst ok.
  assert (Hl1 : (len1 =? 0) = false).
  { apply Z.eqb_neq. subst len1. destruct d1; [congruence|]. simpl length. lia. }
  assert (Hl2 : (len2 =? 0) = false).
  { apply Z.eqb_neq. subst len2. destruct d2; [congruence|]. simpl length. lia. }
  assert (Hpos1 : 0 <= len1) by (subst len1; lia).
  assert (Hpos2 : 0 <= len2) by (subst len2; lia).
  assert (Hcs : 0 < STORAGEFILE_CHUNKSIZE) by lia.
  assert (Ha : uint32_t addr = addr) by (rewrite Haddr_def; apply uint32_t_idem).
  assert (Hk : Z.to_nat (STORAGEFILE_CHUNKSIZE - (len1 + len2))
               = S (Z.to_nat (STORAGEFILE_CHUNKSIZE - (len1 + len2) - 1)))
    by lia.
  set (f0 := {| sf_name := n; sf_chunk := 1; sf_offset := 0; sf_addr := 0;
                sf_mode := ch_w |}).
  set (f1 := {| sf_name := n; sf_chunk := 1; sf_offset := len1;
                sf_addr := addr; sf_mode := ch_w |}).
  set (f2 := {| sf_name := n; sf_chunk := 1; sf_offset := len1 + len2;
                sf_addr := addr; sf_mode := ch_w |}).
  set (fr := {| sf_name := n; sf_chunk := 1; sf_offset := 0; sf_addr := addr;
                sf_mode := ch_r |}).
  assert (Hopenw : jswrap_storage_open fuel fl name wVar
                   = Some (fl, Some f0, None)).
  { unfold jswrap_storage_open, open_mode. rewrite Hwr, Hww.
    change (jsvNewFromStringVar name 0 8) with n.
    fold (chunk_name n 1). fold first_chunk.
    destruct (jsfFindFile fl first_chunk) as [found0 header0].
    cbn [fst] in Habsent. rewrite Habsent. reflexivity. }
  assert (Hw1 : jswrap_storagefile_write fl f0 v1 = (fl1, f1, None)).
  { unfold jswrap_storagefile_write. cbn -[jsfNameFromVar name_end Z.sub].
    rewrite Hd1. fold len1. rewrite Hl1.
    fold (chunk_name n 1). fold first_chunk. rewrite Hcreate.
    rewrite <- Haddr_def. reflexivity. }
  assert (Hw2 : jswrap_storagefile_write fl1 f1 v2 = (fl2, f2, None)).
  { unfold jswrap_storagefile_write. cbn -[jsfNameFromVar name_end Z.sub].
    rewrite Hd2. fold len2. rewrite Hl2, Ha.
    destruct (Z.eqb_spec addr 0); [contradiction|].
    rewrite size_t_small by lia.
    destruct (Z.ltb_spec len2 (STORAGEFILE_CHUNKSIZE - len1)); [|lia].
    rewrite <- Hfl2_def. reflexivity. }
  assert (Hopenr : jswrap_storage_open fuel fl2 name rVar
                   = Some (fl2, Some fr, None)).
  { unfold jswrap_storage_open, open_mode. rewrite Hrr.
    change (jsvNewFromStringVar name 0 8) with n.
    fold (chunk_name n 1). fold first_chunk. rewrite Hstill.
    destruct (jsfFindFile fl1 first_chunk) as [found1 header1].
    cbn [fst] in Haddr_def. rewrite <- Haddr_def. reflexivity. }
  assert (Hdp : data_prefix (stream_from fl2 fr) = d1 ++ d2).
  { unfold stream_from. subst fr. cbn [sf_addr sf_offset sf_name sf_chunk].
    rewrite Ha. destruct (Z.eqb_spec addr 0); [contradiction|].
    rewrite Hbody, Hk. now apply data_then_erased. }
  assert (Hopena : jswrap_storage_open fuel fl2 name aVar
                   = Some (fl2, Some (set_mode f2 ch_a), None)).
  { unfold jswrap_storage_open, open_mode. rewrite Har, Haw, Haa.
    change (jsvNewFromStringVar name 0 8) with n.
    fold (chunk_name n 1). fold first_chunk. rewrite Hstill.
    destruct (jsfFindFile fl1 first_chunk) as [found1 header1].
    cbn [fst snd] in Hsize, Haddr_def. rewrite <- Haddr_def.
    change ((ch_a =? ch_w) && negb (addr =? 0)) with false.
    change (ch_a =? ch_a) with true. cbv iota.
    unfold open_append.
    destruct (Z.eqb_spec addr 0); [contradiction|].
    assert (Hlast : read_lastCh fl2 addr header1 = 255).
    { rewrite (read_lastCh_body fl2 addr header1 Hsize Hcs).
      rewrite chunk_rest_length, Hbody.
      rewrite app_nth2 by (rewrite length_app; subst len1 len2; lia).
      apply nth_repeat. }
    destruct fuel as [|fuel']; [lia|].
    cbn [append_walk]. rewrite Hlast.
    destruct (Z.eqb_spec addr 0); [contradiction|].
    change (negb false && negb (255 =? 255) && (1 <? 255)) with false.
    cbv iota. destruct (Z.eqb_spec addr 0); [contradiction|].
    rewrite append_scan_spec by lia.
    rewrite Hbody, Hk, <- (app_nil_r (_ ++ repeat 255 _)).
    rewrite data_then_erased by assumption.
    rewrite length_app.
    replace (0 + Z.of_nat (length d1 + length d2)) with (len1 + len2)
      by (subst len1 len2; lia).
    reflexivity. }
  destruct (read_spec fuel fl2 fr len) as (f' & Hrun & _); try assumption.
  - reflexivity.
  - unfold handle_ok. simpl. lia.
  - rewrite Hdp in Hrun.
    exists f0, f1, f2, fr, f'.
    split; [exact Hopenw|]. split; [exact Hw1|]. split; [exact Hw2|].
    split; [reflexivity|]. split; [reflexivity|].
    split; [exact Hopenr|]. split; [exact Hrun|exact Hopena].
Qed.

End RoundTrip.


(** * The wrappers on concrete flash contents *)

Import Sim Scenario.

(** C3: on the stream "log" with all 255 chunks present, erase goes on
    after chunk 255: the next chunk number, 256, is 0 as a [char], so the
    journal store is asked to erase the plain file "log", which is lost. *)
Theorem erase_full_stream_erases_plain_file :
  let fl := flash_of full_stream_and_file in
  let f := handle_of full_stream_and_file in
  sf_chunk f = 255
  /\ jswrap_storage_read fl log = Some (str "data")
  /\ match jswrap_storagefile_erase fuel fl f with
     | Some (fl', f') =>
         jswrap_storage_read fl' log = None
         /\ f' = {| sf_name := log; sf_chunk := 1; sf_offset := 0;
                    sf_addr := 0; sf_mode := 0 |}
     | None => False
     end.
Proof. vm_compute. repeat split. Qed.

(** C1 fails when all 255 chunks are full: the walk stops at chunk 255 and
    the scan runs to the end of it. *)
Lemma open_append_full_stream :
  let fl := flash_of full_stream in
  let s := stream_bytes fl log in
  chunks_sized fl log 255 = true
  /\ erased_tail s = true
  /\ count_data s = 255 * STORAGEFILE_CHUNKSIZE
  /\ match jswrap_storage_open fuel fl log (str "a") with
     | Some (_, Some f, None) =>
         sf_chunk f = 255 /\ sf_offset f = STORAGEFILE_CHUNKSIZE
         /\ ~ (sf_chunk f = count_data s / STORAGEFILE_CHUNKSIZE + 1
               /\ sf_offset f = count_data s mod STORAGEFILE_CHUNKSIZE)
     | _ => False
     end.
Proof.
  vm_compute. repeat split; try reflexivity. lia.
Qed.

(** C4 fails for a name of eight bytes: opening "abcdefgh" for writing
    raises no error, builds a handle and erases the stream "abcdefg". *)
Lemma open_long_name_is_accepted :
  (length long_name > sizeof_JsfFileName - 1)%nat
  /\ fst (findFile short_stream (chunk_name short_name 1)) <> 0
  /\ match jswrap_storage_open fuel short_stream long_name (str "w") with
     | Some (fl', Some f, None) =>
         fst (findFile fl' (chunk_name short_name 1)) = 0
         /\ sf_name f = long_name
     | _ => False
     end.
Proof.
  vm_compute. repeat split; try reflexivity; try lia; discriminate.
Qed.

(** C5 fails for empty data: with the chunk exactly full, a write of the
    empty string has at least [remaining = 0] bytes, but it returns at once:
    the chunk number stays, no next chunk is allocated, and on chunk 255 no
    error is raised. *)
Lemma write_empty_does_nothing :
  let empty : bytes := [] in
  (let fl := flash_of one_block in
   let f := handle_of one_block in
   char (sf_mode f) = ch_w
   /\ uint32_t (sf_addr f) <> 0
   /\ STORAGEFILE_CHUNKSIZE - sf_offset f <= Z.of_nat (length empty)
   /\ sf_chunk f = 1
   /\ let '(fl', f', exn) := jswrap_storagefile_write fl f (VString empty) in
      sf_chunk f' = 1 /\ exn = None
      /\ fst (findFile fl' (chunk_name log 2)) = 0)
  /\ (let fl := flash_of full_stream in
      let f := handle_of full_stream in
      char (sf_mode f) = ch_w
      /\ uint32_t (sf_addr f) <> 0
      /\ STORAGEFILE_CHUNKSIZE - sf_offset f <= Z.of_nat (length empty)
      /\ sf_chunk f = 255
      /\ snd (jswrap_storagefile_write fl f (VString empty)) = None).
Proof.
  vm_compute. repeat split; try reflexivity; try lia; discriminate.
Qed.

(** ** The statements at concrete inputs *)

Lemma open_append_position_witness :
  jswrap_storage_open fuel (flash_of forty_bytes) log (str "a")
  = Some (flash_of forty_bytes,
          Some {| sf_name := log; sf_chunk := 2; sf_offset := 8;
                  sf_addr := 4160; sf_mode := ch_a |},
          None)
  /\ match jswrap_storage_open fuel (flash_of full_stream) log (str "a") with
     | Some (_, Some f, None) =>
         f = {| sf_name := log; sf_chunk := 255; sf_offset := 32;
                sf_addr := 16304; sf_mode := ch_a |}
     | _ => False
     end.
Proof.
  split.
  - refine (proj1 (open_append_position (E := externals) fuel
                     (flash_of forty_bytes) log (str "a") _ _ _ _ _ _ _ _) _);
      try (vm_compute; reflexivity).
    + apply Nat.leb_le. vm_compute. reflexivity.
    + apply Nat.ltb_lt. vm_compute. reflexivity.
  - rewrite (proj2 (open_append_position (E := externals) fuel
                      (flash_of full_stream) log (str "a")
                      eq_refl eq_refl eq_refl eq_refl
                      ltac:(apply Nat.leb_le; vm_compute; reflexivity)
                      ltac:(apply Nat.ltb_lt; vm_compute; reflexivity)
                      ltac:(vm_compute; reflexivity)
                      ltac:(vm_compute; reflexivity))
                   ltac:(vm_compute; discriminate)).
    vm_compute. reflexivity.
Defined.

Lemma read_returns_data_ahead_witness :
  exists f',
    jswrap_storagefile_read fuel lines_flash lines_handle 5
    = Some (f', Some (bytes_of_string "one" ++ [ch_newline; 116]), None)
    /\ sf_offset f' = 5.
Proof.
  destruct (read_returns_data_ahead (E := externals) fuel lines_flash
              lines_handle 5) as (_ & _ & _ & f' & Hrun & _ & _ & _ & Hrest).
  - reflexivity.
  - unfold handle_ok. vm_compute. repeat split; discriminate.
  - reflexivity.
  - apply Nat.leb_le. vm_compute. reflexivity.
  - exists f'. split; [exact Hrun|].
    vm_compute in Hrun. injection Hrun as <-. reflexivity.
Defined.

Lemma open_rejects_only_invalid_mode_witness :
  jswrap_storage_open fuel erased long_name (str "x")
  = Some (erased, None, Some (JSET_ERROR "Invalid mode %j"))
  /\ jswrap_storage_open fuel erased long_name (str "r")
     = Some (erased,
             Some {| sf_name := long_name; sf_chunk := 1; sf_offset := 0;
                     sf_addr := 0; sf_mode := ch_r |},
             None)
  /\ chunk_name long_name 1 = short_name ++ [1].
Proof.
  destruct (open_rejects_only_invalid_mode (E := externals) fuel erased
              long_name (str "x")) as (Hx & _).
  destruct (open_rejects_only_invalid_mode (E := externals) fuel erased
              long_name (str "r")) as (_ & Hr & _ & Hlong).
  split; [|split].
  - apply Hx; reflexivity.
  - apply Hr. reflexivity.
  - apply (Hlong ltac:(vm_compute; discriminate) 1).
Defined.

Lemma write_fills_chunk_then_allocates_next_witness :
  (let '(fl', f', exn) :=
     jswrap_storagefile_write (flash_of forty_bytes) (handle_of forty_bytes)
                              (VString thirty_bytes) in
   sf_chunk (handle_of forty_bytes) = 2
   /\ sf_offset (handle_of forty_bytes) = 8
   /\ sf_chunk f' = 3 /\ sf_offset f' = 6 /\ exn = None
   /\ chunk_rest fl' (sf_addr (handle_of forty_bytes)) 0
      = repeat 120 8 ++ firstn 24 thirty_bytes
   /\ data_prefix (chunk_rest fl' (sf_addr f') 0) = skipn 24 thirty_bytes)
  /\ (let '(fl', f', exn) :=
        jswrap_storagefile_write (flash_of almost_full)
                                 (handle_of almost_full)
                                 (VString thirty_bytes) in
      sf_chunk (handle_of almost_full) = 255
      /\ sf_offset (handle_of almost_full) = 8
      /\ f' = handle_of almost_full
      /\ exn = Some (JSET_ERROR "File too big!")
      /\ chunk_rest fl' (sf_addr f') 0
         = repeat 120 8 ++ firstn 24 thirty_bytes)
  /\ jswrap_storagefile_write (flash_of forty_bytes) (handle_of forty_bytes)
                              (VString [])
     = (flash_of forty_bytes, handle_of forty_bytes, None).
Proof.
  split; [|split].
  - destruct (write_fills_chunk_then_allocates_next (E := externals)
                (flash_of forty_bytes) (handle_of forty_bytes)
                (VString thirty_bytes) thirty_bytes) as (_ & Hsplit).
    + left. reflexivity.
    + reflexivity.
    + destruct Hsplit as (_ & _ & Hnext).
      * discriminate.
      * vm_compute. discriminate.
      * reflexivity.
      * vm_compute. split; discriminate.
      * vm_compute. discriminate.
      * rewrite Hnext by (vm_compute; discriminate).
        vm_compute. repeat split.
  - destruct (write_fills_chunk_then_allocates_next (E := externals)
                (flash_of almost_full) (handle_of almost_full)
                (VString thirty_bytes) thirty_bytes) as (_ & Hsplit).
    + left. reflexivity.
    + reflexivity.
    + destruct Hsplit as (_ & Hbig & _).
      * discriminate.
      * vm_compute. discriminate.
      * reflexivity.
      * vm_compute. split; discriminate.
      * vm_compute. discriminate.
      * rewrite Hbig by reflexivity.
        vm_compute. repeat split.
  - destruct (write_fills_chunk_then_allocates_next (E := externals)
                (flash_of forty_bytes) (handle_of forty_bytes)
                (VString []) []) as (Hempty & _).
    + left. reflexivity.
    + reflexivity.
    + apply Hempty. reflexivity.
Defined.

Lemma wrong_mode_is_rejected_witness :
  jswrap_storagefile_read fuel (flash_of one_block) (handle_of one_block) 4
  = Some (handle_of one_block, None, Some read_error)
  /\ jswrap_storagefile_readLine fuel (flash_of one_block)
                                 (handle_of one_block)
     = Some (handle_of one_block, None, Some read_error)
  /\ jswrap_storagefile_write lines_flash lines_handle (str "more")
     = (lines_flash, lines_handle, Some write_error).
Proof.
  destruct (wrong_mode_is_rejected (E := externals) (flash_of one_block)
              (handle_of one_block)) as (Hread & _).
  destruct (wrong_mode_is_rejected (E := externals) lines_flash lines_handle)
    as (_ & Hwrite).
  destruct (Hread ltac:(vm_compute; discriminate) fuel 4) as (H1 & H2).
  split; [exact H1|]. split; [exact H2|].
  apply Hwrite; vm_compute; discriminate.
Defined.

Lemma readLine_returns_first_line_witness :
  exists f',
    jswrap_storagefile_readLine fuel lines_flash lines_handle
    = Some (f', Some (bytes_of_string "one" ++ [ch_newline]), None).
Proof.
  destruct (readLine_returns_first_line (E := externals) fuel lines_flash
              lines_handle) as ((f' & Hrun & _) & _).
  - reflexivity.
  - unfold handle_ok. vm_compute. repeat split; discriminate.
  - reflexivity.
  - apply Nat.leb_le. vm_compute. reflexivity.
  - exists f'. exact Hrun.
Defined.

Lemma write_object_ignores_offset_and_size_witness :
  jsvIsObject an_object = true
  /\ jswrap_storage_write erased log an_object 5 14
     = jswrap_storage_write erased log an_object 0 0.
Proof.
  split; [reflexivity|].
  apply (write_object_ignores_offset_and_size (E := externals) erased log
           an_object 5 14).
  reflexivity.
Defined.

Lemma operations_after_erase_fail_witness :
  jswrap_storagefile_read fuel (fst after_erase) (snd after_erase) 4
  = Some (snd after_erase, None, Some read_error)
  /\ jswrap_storagefile_write (fst after_erase) (snd after_erase) (str "more")
     = (fst after_erase, snd after_erase, Some write_error).
Proof.
  destruct (operations_after_erase_fail (E := externals) fuel
              (flash_of one_block) (fst after_erase) (handle_of one_block)
              (snd after_erase)) as (_ & Hops).
  - vm_compute. reflexivity.
  - destruct (Hops fuel (fst after_erase) 4 (str "more")) as (H1 & _ & H3).
    split; assumption.
Defined.

(** ** The further properties at concrete inputs *)

Lemma chunk_name_appends_chunk_byte_witness :
  chunk_name log 99 = jsfNameFromVar (bytes_of_string "logc").
Proof.
  apply (chunk_name_appends_chunk_byte log 99).
  - vm_compute. lia.
  - vm_compute. discriminate.
Defined.

Lemma chunk_names_are_distinct_witness :
  (chunk_name log 1 = chunk_name log 2 -> 1 = 2)
  /\ chunk_name log 1 <> jsfNameFromVar log.
Proof.
  destruct (chunk_names_are_distinct log 1 2 ltac:(lia) ltac:(lia))
    as [Hinj Hbare].
  split; [exact Hinj|]. apply Hbare. vm_compute. lia.
Defined.

Lemma open_append_is_total_witness :
  exists f,
    jswrap_storage_open fuel (flash_of forty_bytes) log (str "a")
    = Some (flash_of forty_bytes, Some f, None)
    /\ handle_ok f
    /\ flash_byte (flash_of forty_bytes) (uint32_t (sf_addr f + sf_offset f))
       = 255.
Proof.
  destruct (open_append_is_total (E := externals) fuel (flash_of forty_bytes)
              log (str "a")) as (f & Hopen & _ & _ & Hok & _ & _ & Hpos);
    try reflexivity.
  - apply Nat.leb_le. vm_compute. reflexivity.
  - apply Nat.ltb_lt. vm_compute. reflexivity.
  - exists f. split; [exact Hopen|]. split; [exact Hok|].
    vm_compute in Hopen. injection Hopen as <-.
    apply Hpos; vm_compute; [discriminate|reflexivity].
Defined.

Lemma open_write_starts_empty_witness :
  snd (fst reopened)
  = Some {| sf_name := log; sf_chunk := 1; sf_offset := 0; sf_addr := 0;
            sf_mode := ch_w |}
  /\ snd reopened = None.
Proof.
  destruct (open_write_starts_empty (E := externals) fuel (flash_of one_block)
              (fst (fst reopened)) log (str "w") (snd (fst reopened))
              (snd reopened)) as (Hexn & Hr & _).
  - reflexivity.
  - reflexivity.
  - vm_compute. reflexivity.
  - split; [exact Hr|exact Hexn].
Defined.

Lemma open_then_read_witness :
  exists f f',
    jswrap_storage_open fuel lines_flash log (str "r")
    = Some (lines_flash, Some f, None)
    /\ jswrap_storagefile_read fuel lines_flash f 3
       = Some (f', Some (bytes_of_string "one"), None).
Proof.
  destruct (open_then_read (E := externals) fuel lines_flash log (str "r") 3)
    as (f & f' & Hopen & Hread).
  - reflexivity.
  - reflexivity.
  - apply Nat.leb_le. vm_compute. reflexivity.
  - exists f, f'. split; [exact Hopen|exact Hread].
Defined.

Lemma read_nothing_for_no_length_witness :
  jswrap_storagefile_read fuel lines_flash lines_handle (-3)
  = Some (lines_handle, None, None).
Proof.
  apply (read_nothing_for_no_length (E := externals)).
  - reflexivity.
  - apply Nat.leb_le. vm_compute. reflexivity.
  - lia.
Defined.


Lemma read_results_are_data_witness :
  exists f1 r1 f2 r2,
    jswrap_storagefile_read fuel lines_flash lines_handle 100
    = Some (f1, r1, None)
    /\ jswrap_storagefile_readLine fuel lines_flash lines_handle
       = Some (f2, r2, None)
    /\ Forall (fun b => b <> 255) (bytes_of_result r1)
    /\ ~ In ch_newline (removelast (bytes_of_result r2)).
Proof.
  destruct (read_results_are_data (E := externals) fuel lines_flash
              lines_handle 100)
    as (f1 & r1 & f2 & r2 & H1 & H2 & Hd1 & _ & Hnl & _).
  - reflexivity.
  - unfold handle_ok. vm_compute. repeat split; discriminate.
  - reflexivity.
  - apply Nat.leb_le. vm_compute. reflexivity.
  - exists f1, r1, f2, r2. repeat split; assumption.
Defined.

Lemma end_of_data_is_sticky_witness :
  (exists f2,
     jswrap_storagefile_read fuel lines_flash lines_end 7
     = Some (f2, None, None))
  /\ (exists f2,
        jswrap_storagefile_readLine fuel lines_flash lines_end
        = Some (f2, None, None)).
Proof.
  apply (end_of_data_is_sticky (E := externals) fuel lines_flash lines_end
           lines_end 4 None).
  - reflexivity.
  - unfold handle_ok. vm_compute. repeat split; discriminate.
  - reflexivity.
  - apply Nat.leb_le. vm_compute. reflexivity.
  - lia.
  - vm_compute. reflexivity.
Defined.

Lemma lines_partition_the_data_witness :
  exists (rs : list (option bytes)) (rest : bytes),
    readLines 4 fuel lines_flash lines_handle = Some rs
    /\ data_prefix (stream_from lines_flash lines_handle)
       = concat (map bytes_of_result rs) ++ rest.
Proof.
  destruct (lines_partition_the_data (E := externals) 4 fuel lines_flash
              lines_handle) as (rs & rest & Hrun & _ & Hcat & _).
  - reflexivity.
  - unfold handle_ok. vm_compute. repeat split; discriminate.
  - reflexivity.
  - apply Nat.leb_le. vm_compute. reflexivity.
  - exists rs, rest. split; assumption.
Defined.

(** The simulated store refuses data longer than the reserved size. *)
Lemma sim_write_fits (fl0 fl1 : Flash) (fname : JsfFileName) (d : bytes) :
  writeFile fl0 fname (VString d) 0 0 CHUNKSIZE = (fl1, true) ->
  Z.of_nat (length d) <= CHUNKSIZE.
Proof.
  unfold writeFile. cbn [var_bytes].
  change ((0 <? 0) || (CHUNKSIZE <? 0)) with false.
  change (CHUNKSIZE =? 0) with false. change (0 =? 0) with true. cbv iota.
  destruct (Z.leb_spec (Z.of_nat (length d)) CHUNKSIZE) as [H|H];
    [intros _; exact H|discriminate].
Qed.

Lemma write_keeps_handle_in_range_witness :
  handle_ok (snd (fst (jswrap_storagefile_write (flash_of one_block)
                                                (handle_of one_block)
                                                (str "Y")))).
Proof.
  apply (write_keeps_handle_in_range (E := externals) (flash_of one_block)
           (handle_of one_block) (str "Y")).
  - unfold handle_ok. vm_compute. repeat split; discriminate.
  - reflexivity.
  - exact sim_write_fits.
Defined.

Lemma write_then_read_round_trip_witness :
  exists f0 f1 f2 fr f' fl1 fl2,
    jswrap_storage_open fuel erased log (str "w") = Some (erased, Some f0, None)
    /\ jswrap_storagefile_write erased f0 (str "Hello ") = (fl1, f1, None)
    /\ jswrap_storagefile_write fl1 f1 (str "World") = (fl2, f2, None)
    /\ sf_offset f2 = 11
    /\ jswrap_storage_open fuel fl2 log (str "r") = Some (fl2, Some fr, None)
    /\ jswrap_storagefile_read fuel fl2 fr 100
       = Some (f', Some (bytes_of_string "Hello World"), None)
    /\ jswrap_storage_open fuel fl2 log (str "a")
       = Some (fl2, Some (set_mode f2 ch_a), None).
Proof.
  destruct (write_then_read_round_trip (E := externals) fuel erased log
              (str "w") (str "r") (str "a") (str "Hello ") (str "World")
              (bytes_of_string "Hello ") (bytes_of_string "World") 100)
    as (f0 & f1 & f2 & fr & f' & Hw & H1 & H2 & _ & Hoff & Hr & Hread & Ha);
    try reflexivity; try discriminate.
  - apply Nat.leb_le. vm_compute. reflexivity.
  - exists f0, f1, f2, fr, f'. eexists _, _.
    split; [exact Hw|]. split; [exact H1|]. split; [exact H2|].
    split; [exact Hoff|]. split; [exact Hr|]. split; [exact Hread|exact Ha].
Defined.

Lemma erase_stops_at_first_absent_chunk_witness :
  jswrap_storagefile_erase fuel (flash_of one_block) (handle_of one_block)
  = Some after_erase.
Proof.
  rewrite (erase_stops_at_first_absent_chunk (E := externals) fuel 1
             (flash_of one_block) (handle_of one_block)).
  - vm_compute. reflexivity.
  - apply Nat.ltb_lt. vm_compute. reflexivity.
  - vm_compute. reflexivity.
  - vm_compute. reflexivity.
Defined.
